(** * estorage: asset mirror and navigation guard

    A shallow embedding of [packages/estorage/src/estorageClient.ts] and
    [packages/estorage/src/main.ts], and the properties of the asset mirror
    ([downloadAssets], [uploadRepos], [printTree]) and of the SPA routing
    kill-switch ([hardNavigate], [disableSpaRouting], [restoreSpaRouting]).

    Asynchronous functions are embedded as computations in a small monad that
    threads a state, collects the observable events in program order, and
    propagates JavaScript exceptions.  Every [await] in the sources is
    sequential, so [await e] is the monadic bind.  The browser, the server
    and the filesystem are parameters of the embedding; a reference
    filesystem and a reference server instantiate them in the scenarios.
    In the kill-switch a call of a function value is dispatched on the
    function: a closure of the kill-switch runs its own body, any other
    function is an event.  A bound on nested calls stands for the stack of
    the engine, and a bound on loop steps separates the loops that end from
    those that do not.

    The definitions come first: the embedding of the two source files, then
    the vocabulary in which the properties are stated.  The properties
    follow. *)

From Stdlib Require Import String Ascii List Bool Arith Lia.
From Stdlib.Strings Require Import Byte.
From Stdlib.Numbers Require Import DecimalString.
Import ListNotations.
Open Scope list_scope.
Open Scope string_scope.

(** ** JavaScript control flow *)

Module Js.

(** A thrown value.  Only the message matters to the code embedded here: every
    [catch] either ignores the value or prints it. *)
Inductive Exn : Type :=
| JsError (msg : string).

(** The result of a synchronous call, or of a settled promise. *)
Inductive result (A : Type) : Type :=
| Ret (a : A)
| Raise (e : Exn).
Arguments Ret {A} a.
Arguments Raise {A} e.

Section Monad.
Context {E St : Type}.

(** How a computation ends: normally, by an exception, or not at all.  Each
    carries the events emitted, oldest first; the first two carry the final
    state. *)
Inductive outcome (A : Type) : Type :=
| Done (a : A) (s : St) (tr : list E)
| Threw (e : Exn) (s : St) (tr : list E)
| Diverged (tr : list E).
Arguments Done {A} a s tr.
Arguments Threw {A} e s tr.
Arguments Diverged {A} tr.

Definition M (A : Type) : Type := St -> outcome A.

Definition after {A} (t : list E) (o : outcome A) : outcome A :=
  match o with
  | Done a s tr => Done a s (t ++ tr)%list
  | Threw e s tr => Threw e s (t ++ tr)%list
  | Diverged tr => Diverged (t ++ tr)%list
  end.

Definition ret {A} (a : A) : M A := fun s => Done a s [].

Definition throw {A} (e : Exn) : M A := fun s => Threw e s [].

Definition diverge {A} : M A := fun _ => Diverged [].

Definition bind {A B} (m : M A) (k : A -> M B) : M B :=
  fun s =>
    match m s with
    | Done a s1 t1 => after t1 (k a s1)
    | Threw e s1 t1 => Threw e s1 t1
    | Diverged t1 => Diverged t1
    end.

(** [try { m } catch (e) { h e }] *)
Definition try_catch {A} (m : M A) (h : Exn -> M A) : M A :=
  fun s =>
    match m s with
    | Done a s1 t1 => Done a s1 t1
    | Threw e s1 t1 => after t1 (h e s1)
    | Diverged t1 => Diverged t1
    end.

Definition emit (ev : E) : M unit := fun s => Done tt s [ev].

Definition get : M St := fun s => Done s s [].

Definition put (s : St) : M unit := fun _ => Done tt s [].

Definition lift {A} (r : result A) : M A :=
  match r with
  | Ret a => ret a
  | Raise e => throw e
  end.

(** [for (const x of l) { body x }] *)
Fixpoint for_of {A} (l : list A) (body : A -> M unit) : M unit :=
  match l with
  | [] => ret tt
  | x :: rest => bind (body x) (fun _ => for_of rest body)
  end.

(** [for (let i = start; i < start + count; i++) { body i }] *)
Fixpoint for_range (count start : nat) (body : nat -> M unit) : M unit :=
  match count with
  | 0 => ret tt
  | S count' => bind (body start) (fun _ => for_range count' (S start) body)
  end.

(** The events of a run. *)
Definition events {A} (o : outcome A) : list E :=
  match o with
  | Done _ _ tr => tr
  | Threw _ _ tr => tr
  | Diverged tr => tr
  end.

Definition final {A} (o : outcome A) : option St :=
  match o with
  | Done _ s _ => Some s
  | Threw _ s _ => Some s
  | Diverged _ => None
  end.

Definition completes {A} (o : outcome A) : bool :=
  match o with
  | Done _ _ _ => true
  | _ => false
  end.

End Monad.

Arguments outcome : clear implicits.
Arguments M : clear implicits.
Arguments Done {E St A} a s tr.
Arguments Threw {E St A} e s tr.
Arguments Diverged {E St A} tr.

End Js.

Import Js.

Declare Scope js_scope.
Delimit Scope js_scope with js.
Notation "x <- c1 ;; c2" := (bind c1 (fun x => c2))
  (at level 61, c1 at next level, right associativity) : js_scope.
Notation "c1 ;; c2" := (bind c1 (fun _ => c2))
  (at level 61, right associativity) : js_scope.
Open Scope js_scope.

(** ** Strings *)

(** [s.split("/")]: the segments between slashes, empty ones included. *)
Fixpoint split_slash (s : string) : list string :=
  match s with
  | EmptyString => [""]
  | String c rest =>
      if Ascii.eqb c "/" then "" :: split_slash rest
      else match split_slash rest with
           | seg :: segs => String c seg :: segs
           | [] => [String c ""]
           end
  end.

(** [s.replace(/^\/+/, "")] *)
Fixpoint strip_leading_slashes (s : string) : string :=
  match s with
  | String c rest => if Ascii.eqb c "/" then strip_leading_slashes rest else s
  | EmptyString => s
  end.

(** The template literal [`${n}`] of a non-negative integer. *)
Definition string_of_nat (n : nat) : string :=
  NilZero.string_of_uint (Nat.to_uint n).

(** A character matches the pattern character [c] under the [i] flag: the two
    canonicalise to the same character.  For the ASCII letters of [zip] these
    are the letter and its upper-case form. *)
Definition eqb_ci (lower upper c : ascii) : bool :=
  Ascii.eqb c lower || Ascii.eqb c upper.

(** The whole of [s] matches [\.zip] under the [i] flag. *)
Definition is_dot_zip (s : string) : bool :=
  match s with
  | String c0 (String c1 (String c2 (String c3 EmptyString))) =>
      Ascii.eqb c0 "." && eqb_ci "z" "Z" c1 && eqb_ci "i" "I" c2
      && eqb_ci "p" "P" c3
  | _ => false
  end.

(** [s.replace(/\.zip$/i, "")]: the matcher tries each start position from the
    left; the pattern is anchored at the end of input, so a match consumes the
    rest of the string. *)
Fixpoint replace_zip_suffix (s : string) : string :=
  if is_dot_zip s then ""
  else match s with
       | EmptyString => ""
       | String c rest => String c (replace_zip_suffix rest)
       end.

(** ** estorageClient.ts *)

Inductive DirEntry : Type :=
| EDir (name : string)
| EFile (name : string) (sha256 : string).

(** [entry.name], present in both variants. *)
Definition entry_name (e : DirEntry) : string :=
  match e with
  | EDir n => n
  | EFile n _ => n
  end.

(** A [File]: its name and its content. *)
Record JsFile : Type := mkFile {
  file_name : string;
  file_bytes : list byte
}.

Inductive Method : Type := GET | POST.

(** One part of a [FormData]: [form.append(field, blob, filename)]. *)
Record FormPart : Type := mkPart {
  part_field : string;
  part_blob : JsFile;
  part_filename : string
}.

(** What the client passes to [fetch] ([credentials] is always ["include"] and
    [signal] is always [undefined] in the calls of main.ts). *)
Record Request : Type := mkRequest {
  req_method : Method;
  req_url : string;
  req_accept : option string;
  req_body : option FormPart
}.

Record Response (Json : Type) : Type := mkResponse {
  res_ok : bool;
  res_status : nat;
  res_statusText : string;
  res_json : result Json;
  res_arrayBuffer : result (list byte)
}.
Arguments mkResponse {Json}.
Arguments res_ok {Json}.
Arguments res_status {Json}.
Arguments res_statusText {Json}.
Arguments res_json {Json}.
Arguments res_arrayBuffer {Json}.

(** The browser and the server behind it, as the client sees them: [fetch]
    answers a request or fails in transport; [encodeURIComponent] is the
    built-in; [entries_of_json] is the unchecked cast [as DirEntry[]]. *)
Record Net : Type := mkNet {
  Json : Type;
  fetch : Request -> result (Response Json);
  encodeURIComponent : string -> string;
  entries_of_json : Json -> list DirEntry
}.

(** The virtual filesystem capability [pfs] ([LightningFS(...).promises]) over
    a store of type [FS]: each operation either succeeds or rejects; a rejected
    operation leaves the store as it was. *)
Record Stats : Type := mkStats { st_type : string }.

Record Pfs (FS : Type) : Type := mkPfs {
  pfs_stat : FS -> string -> result Stats;
  pfs_mkdir : FS -> string -> result FS;
  pfs_writeFile : FS -> string -> list byte -> result FS;
  pfs_readdir : FS -> string -> result (list string)
}.
Arguments pfs_stat {FS}.
Arguments pfs_mkdir {FS}.
Arguments pfs_writeFile {FS}.
Arguments pfs_readdir {FS}.

(** What a run of the mirror does to the outside, in order. *)
Inductive Event : Type :=
| EvFetch (r : Request)
| EvStat (path : string)
| EvMkdir (path : string)
| EvWriteFile (path : string) (data : list byte)
| EvReaddir (path : string)
| EvLog (line : string)
| EvError (line : string)
| EvErrorExn (e : Exn).

Section Client.
Context {FS : Type} (net : Net).

Local Abbreviation M := (Js.M Event FS).

Definition backend : string := "".

Definition ensureOk (res : Response (Json net)) (label : string) : M unit :=
  if negb (res_ok res) then
    throw (JsError (label ++ " failed: " ++ string_of_nat (res_status res)
                      ++ " " ++ res_statusText res))
  else ret tt.

Definition encodePath (path : string) : string :=
  let trimmed := strip_leading_slashes path in
  if String.eqb trimmed "" then ""
  else String.concat "/" (map (encodeURIComponent net) (split_slash trimmed)).

(** [await fetch(url, init)] *)
Definition do_fetch (r : Request) : M (Response (Json net)) :=
  emit (EvFetch r) ;; lift (fetch net r).

(** [zip] is a [File] in every call of main.ts, so [(zip as any).name] is
    defined and names the part. *)
Definition uploadDBZip (dbName : string) (zip : JsFile) : M (Json net) :=
  let url := backend ++ "/estorage/" ++ encodeURIComponent net dbName in
  let form := mkPart "file" zip (file_name zip) in
  res <- do_fetch (mkRequest POST url None (Some form)) ;;
  ensureOk res "uploadDBZip" ;;
  lift (res_json res).

Definition listDBDir (dbName path : string) : M (list DirEntry) :=
  let enc := encodePath path in
  let url := backend ++ "/estorage/" ++ encodeURIComponent net dbName
             ++ "/" ++ enc in
  res <- do_fetch (mkRequest GET url (Some "application/json") None) ;;
  ensureOk res "listDBDir" ;;
  j <- lift (res_json res) ;;
  ret (entries_of_json net j).

Definition fetchDBFileBytes (dbName path : string) : M (list byte) :=
  let enc := encodePath path in
  let url := backend ++ "/estorage/" ++ encodeURIComponent net dbName
             ++ "/" ++ enc in
  res <- do_fetch (mkRequest GET url None None) ;;
  ensureOk res "fetchDBFileBytes" ;;
  lift (res_arrayBuffer res).

End Client.

(** ** main.ts: the asset mirror *)

Section Mirror.
Context {FS : Type} (pfs : Pfs FS) (net : Net).

Local Abbreviation M := (Js.M Event FS).

Definition console_log (line : string) : M unit := emit (EvLog line).
Definition console_error (line : string) : M unit := emit (EvError line).
Definition console_error_exn (e : Exn) : M unit := emit (EvErrorExn e).

(** [await pfs.stat(path)] and the other three operations. *)
Definition stat (path : string) : M Stats :=
  emit (EvStat path) ;; fs <- get ;; lift (pfs_stat pfs fs path).

Definition mkdir (path : string) : M unit :=
  emit (EvMkdir path) ;; fs <- get ;;
  fs' <- lift (pfs_mkdir pfs fs path) ;; put fs'.

Definition writeFile (path : string) (data : list byte) : M unit :=
  emit (EvWriteFile path data) ;; fs <- get ;;
  fs' <- lift (pfs_writeFile pfs fs path data) ;; put fs'.

Definition readdir (path : string) : M (list string) :=
  emit (EvReaddir path) ;; fs <- get ;; lift (pfs_readdir pfs fs path).

(** Lines 87-99: the body of the loop of [printTree] at index [i], with
    [recur] for the recursive call. *)
Definition printEntry (recur : string -> string -> M unit)
  (entries : list string) (dir prefix : string) (i : nat) : M unit :=
  let name := nth i entries "" in
  let isLast := Nat.eqb i (length entries - 1) in
  let path := if String.eqb dir "/" then "/" ++ name
              else dir ++ "/" ++ name in
  st <- stat path ;;
  let connector := if isLast then "└── " else "├── " in
  console_log (prefix ++ connector ++ name) ;;
  if String.eqb (st_type st) "dir" then
    let newPrefix := prefix ++ (if isLast then "    " else "│   ") in
    recur path newPrefix
  else ret tt.

(** [printTree(pfs, dir, prefix)].  The recursion follows the directory
    structure it reads, so it is bounded here by [fuel]; running out of fuel is
    a run that does not end. *)
Fixpoint printTree (fuel : nat) (dir prefix : string) : M unit :=
  match fuel with
  | 0 => diverge
  | S fuel' =>
      entries <- readdir dir ;;
      for_range (length entries) 0
        (printEntry (printTree fuel') entries dir prefix)
  end.

Definition dbPath (db : string) : string := "/" ++ db.

Definition assetPath (db name : string) : string :=
  "/" ++ db ++ "/assets/" ++ name.

(** Lines 31-44: make sure [/${db}] is a directory. *)
Definition ensureDbDir (db : string) : M unit :=
  try_catch
    (stats <- stat (dbPath db) ;;
     if negb (String.eqb (st_type stats) "dir") then
       throw (JsError "Path exists but is not a directory")
     else ret tt)
    (fun _ =>
       try_catch
         (mkdir (dbPath db))
         (fun _ =>
            console_error
              ("Failed to make a lightningfs " ++ db ++ " folder"))).

(** Lines 48-63: the body of the loop over [assetFiles]. *)
Definition syncAsset (db : string) (assetFile : DirEntry) : M unit :=
  let name := entry_name assetFile in
  try_catch
    (stats <- stat (assetPath db name) ;;
     if negb (String.eqb (st_type stats) "file") then
       throw (JsError "Path exists but is not a asset file")
     else ret tt)
    (fun _ =>
       try_catch
         (data <- fetchDBFileBytes net db ("assets/" ++ name) ;;
          writeFile (assetPath db name) data ;;
          console_log ("Wrote asset file at " ++ db ++ "/assets/" ++ name))
         (fun _ =>
            console_error ("Failed to write to lightningfs for " ++ db
                             ++ "/assets/" ++ name))).

(** Lines 18-73: the body of the loop over [dbs].  Line 21 opens the
    persistent store ([wipe: false]); it is the [FS] state of the run. *)
Definition syncDb (fuel : nat) (db : string) : M unit :=
  try_catch
    (assetFiles <- listDBDir net db "assets" ;;
     ensureDbDir db ;;
     for_of assetFiles (syncAsset db) ;;
     printTree fuel "/" "")
    (fun e =>
       console_error ("Failed to find asset dir for " ++ db) ;;
       console_error_exn e).

Record DbObj : Type := mkDb { db_name : string }.

Definition downloadAssets (fuel : nat) (dbs : list DbObj) : M unit :=
  for_of dbs (fun dbObj => syncDb fuel (db_name dbObj)).

Definition uploadRepos (files : list JsFile) : M unit :=
  for_of files (fun file =>
    _ <- uploadDBZip net (replace_zip_suffix (file_name file)) file ;;
    ret tt).

End Mirror.

(** ** estorageClient.ts and main.ts: the list of databases *)

(** [{ name: db, bytes }] *)
Record Repo : Type := mkRepo {
  repo_name : string;
  repo_bytes : list byte
}.

Section Repos.
Context {FS : Type} (net : Net).

(** The unchecked cast [as string[]] of [listDBs]. *)
Variable names_of_json : Json net -> list string.

Local Abbreviation M := (Js.M Event FS).

Definition listDBs : M (list string) :=
  let url := backend ++ "/estorage" in
  res <- do_fetch net (mkRequest GET url None None) ;;
  ensureOk net res "listDBs" ;;
  j <- lift (res_json res) ;;
  ret (names_of_json j).

(** Lines 9-11 of main.ts: the loop of [getNewRepos], with the array [arrs]
    built so far. *)
Fixpoint collectRepos (dbs : list string) (arrs : list Repo)
  : M (list Repo) :=
  match dbs with
  | [] => ret arrs
  | db :: rest =>
      bytes <- fetchDBFileBytes net db "db.sqlite" ;;
      collectRepos rest (arrs ++ [mkRepo db bytes])%list
  end.

Definition getNewRepos : M (list Repo) :=
  dbs <- listDBs ;;
  collectRepos dbs [].

End Repos.

(** ** A reference filesystem

    [pfs] is the promise interface of a LightningFS store.  [MemFS] is an
    in-memory tree that follows LightningFS on the calls that main.ts makes.
    A path is resolved segment by segment from the root.  [stat] and
    [readdir] reject a path that does not resolve.  [mkdir] and [writeFile]
    resolve the parent directory of the path and reject when it does not
    resolve: neither creates a missing parent.  [mkdir] rejects a path that
    exists; [writeFile] replaces the content of a file and rejects a
    directory.  A directory lists its children in the order in which they
    were created.  The segments [.] and [..] get no special treatment, and a
    parent that resolves to a file is rejected: no property below depends on
    either case. *)

Module MemFS.

#[warnings="-register-all"]
Inductive node : Type :=
| File (data : list byte)
| Dir (children : list (string * node)).

Definition ENOENT : Exn := JsError "ENOENT".
Definition EEXIST : Exn := JsError "EEXIST".
Definition ENOTDIR : Exn := JsError "ENOTDIR".
Definition EISDIR : Exn := JsError "EISDIR".

(** The segments of a path: the non-empty pieces between slashes. *)
Definition segments (path : string) : list string :=
  filter (fun seg => negb (String.eqb seg "")) (split_slash path).

Fixpoint child (name : string) (cs : list (string * node)) : option node :=
  match cs with
  | [] => None
  | (k, v) :: rest => if String.eqb k name then Some v else child name rest
  end.

(** Replace the child called [name], or add it after the others. *)
Fixpoint set_child (name : string) (c : node) (cs : list (string * node))
  : list (string * node) :=
  match cs with
  | [] => [(name, c)]
  | (k, v) :: rest =>
      if String.eqb k name then (k, c) :: rest
      else (k, v) :: set_child name c rest
  end.

Fixpoint lookup (p : list string) (n : node) : option node :=
  match p with
  | [] => Some n
  | seg :: p' =>
      match n with
      | Dir cs =>
          match child seg cs with
          | Some c => lookup p' c
          | None => None
          end
      | File _ => None
      end
  end.

(** Rewrite the children of the directory at [p]. *)
Fixpoint in_dir (p : list string)
  (f : list (string * node) -> result (list (string * node))) (n : node)
  : result node :=
  match p with
  | [] =>
      match n with
      | Dir cs =>
          match f cs with
          | Ret cs' => Ret (Dir cs')
          | Raise e => Raise e
          end
      | File _ => Raise ENOTDIR
      end
  | seg :: p' =>
      match n with
      | Dir cs =>
          match child seg cs with
          | Some c =>
              match in_dir p' f c with
              | Ret c' => Ret (Dir (set_child seg c' cs))
              | Raise e => Raise e
              end
          | None => Raise ENOENT
          end
      | File _ => Raise ENOENT
      end
  end.

Definition stat (fs : node) (path : string) : result Stats :=
  match lookup (segments path) fs with
  | Some (File _) => Ret (mkStats "file")
  | Some (Dir _) => Ret (mkStats "dir")
  | None => Raise ENOENT
  end.

Definition mkdir (fs : node) (path : string) : result node :=
  match segments path with
  | [] => Raise EEXIST
  | segs =>
      let name := last segs "" in
      in_dir (removelast segs)
        (fun cs =>
           match child name cs with
           | Some _ => Raise EEXIST
           | None => Ret (cs ++ [(name, Dir [])])%list
           end) fs
  end.

Definition writeFile (fs : node) (path : string) (data : list byte)
  : result node :=
  match segments path with
  | [] => Raise EISDIR
  | segs =>
      let name := last segs "" in
      in_dir (removelast segs)
        (fun cs =>
           match child name cs with
           | Some (Dir _) => Raise EISDIR
           | _ => Ret (set_child name (File data) cs)
           end) fs
  end.

Definition readdir (fs : node) (path : string) : result (list string) :=
  match lookup (segments path) fs with
  | Some (Dir cs) => Ret (map fst cs)
  | Some (File _) => Raise ENOTDIR
  | None => Raise ENOENT
  end.

Definition pfs : Pfs node := mkPfs node stat mkdir writeFile readdir.

(** The store before anything was written: the root directory alone. *)
Definition empty : node := Dir [].

End MemFS.

(** ** A reference server

    [encodeURIComponent] leaves the unreserved characters and escapes every
    other byte as [%XX]. *)

Definition unreserved (c : ascii) : bool :=
  let n := nat_of_ascii c in
  (Nat.leb 65 n && Nat.leb n 90) || (Nat.leb 97 n && Nat.leb n 122)
  || (Nat.leb 48 n && Nat.leb n 57)
  || existsb (Ascii.eqb c) ["-"; "_"; "."; "!"; "~"; "*"; "'"; "("; ")"]%char.

Definition hex_digit (n : nat) : ascii :=
  nth n ["0"; "1"; "2"; "3"; "4"; "5"; "6"; "7"; "8"; "9";
         "A"; "B"; "C"; "D"; "E"; "F"]%char "0"%char.

Fixpoint percent_encode (s : string) : string :=
  match s with
  | EmptyString => ""
  | String c rest =>
      if unreserved c then String c (percent_encode rest)
      else String "%" (String (hex_digit (nat_of_ascii c / 16))
             (String (hex_digit (nat_of_ascii c mod 16))
                (percent_encode rest)))
  end.

(** A server that holds, for each URL, either a directory listing or the bytes
    of a file, and answers 404 for any other URL. *)
Inductive Resource : Type :=
| Listing (entries : list DirEntry)
| Bytes (data : list byte).

Definition not_json : Exn := JsError "Unexpected token".

Definition serve (site : list (string * Resource)) (r : Request)
  : result (Response (list DirEntry)) :=
  match find (fun kv => String.eqb (fst kv) (req_url r)) site with
  | Some (_, Listing es) => Ret (mkResponse true 200 "OK" (Ret es) (Ret []))
  | Some (_, Bytes d) => Ret (mkResponse true 200 "OK" (Raise not_json) (Ret d))
  | None =>
      Ret (mkResponse false 404 "Not Found" (Raise not_json) (Ret []))
  end.

Definition server (site : list (string * Resource)) : Net :=
  mkNet (list DirEntry) (serve site) percent_encode (fun es => es).

(** The end-to-end scenario: database [mydb] with the single asset [a.png]. *)
Definition a_png : list byte := [x89; x50; x4e; x47].

Definition mydb_site : list (string * Resource) :=
  [ ("/estorage/mydb/assets", Listing [EFile "a.png" "abc"]);
    ("/estorage/mydb/assets/a.png", Bytes a_png) ].

(** ** main.ts: the SPA routing kill-switch *)

(** The values that reach the kill-switch as [url], [delta] or [options].
    [VOther] is any other value, given by what [String(v)] does with it. *)
Inductive JsVal : Type :=
| VUndefined
| VNull
| VBool (b : bool)
| VString (s : string)
| VOther (str : result string).

(** [String(v)] *)
Definition js_String (v : JsVal) : result string :=
  match v with
  | VUndefined => Ret "undefined"
  | VNull => Ret "null"
  | VBool true => Ret "true"
  | VBool false => Ret "false"
  | VString s => Ret s
  | VOther str => str
  end.

(** [v != null] *)
Definition not_nullish (v : JsVal) : bool :=
  match v with
  | VUndefined | VNull => false
  | _ => true
  end.

(** Function values.  [Builtin] is any function that the kill-switch did not
    create: the browser's own, or one installed by another script; calling it
    is an event and leaves the bindings and the [saved] object alone.
    [Bound] is [f.bind(...)].  The others are the closures that
    [disableSpaRouting] installs; they all close over the one [saved]
    object, so the closures of two calls behave alike. *)
Inductive Fn : Type :=
| Builtin (id : nat)
| Bound (f : Fn)
| KsPushState
| KsReplaceState
| KsBack
| KsForward
| KsGo
| KsAddEventListener
| KsRemoveEventListener.

(** Event listeners, compared by identity.  Every call of
    [disableSpaRouting] creates its two handlers anew: [OnHashAttempt n] and
    [OnPopState n] are the handlers of the call that found those of number
    [n - 1] in the [saved] object.  [NoListener] is [undefined] in the place
    of a listener. *)
Inductive Listener : Type :=
| AppListener (id : nat)
| OnHashAttempt (n : nat)
| OnPopState (n : nat)
| NoListener.

(** [a === b] *)
Definition Listener_eqb (a b : Listener) : bool :=
  match a, b with
  | AppListener i, AppListener j => Nat.eqb i j
  | OnHashAttempt i, OnHashAttempt j => Nat.eqb i j
  | OnPopState i, OnPopState j => Nat.eqb i j
  | NoListener, NoListener => true
  | _, _ => false
  end.

(** The arguments of a call.  The code calls functions with no argument
    ([back], [forward]), with one ([go]) and with three ([type], [listener],
    [options]; or [state], [title], [url], where the first two are not
    looked at and stand as [undefined]). *)
Inductive Args : Type :=
| NoArgs
| OneArg (a0 : JsVal)
| ThreeArgs (a0 : JsVal) (a1 : Listener) (a2 : JsVal).

(** The parameters of the called function; one that was not passed is
    [undefined]. *)
Definition arg0 (args : Args) : JsVal :=
  match args with
  | NoArgs => VUndefined
  | OneArg a0 => a0
  | ThreeArgs a0 _ _ => a0
  end.

Definition arg1 (args : Args) : Listener :=
  match args with
  | ThreeArgs _ a1 _ => a1
  | _ => NoListener
  end.

Definition arg2 (args : Args) : JsVal :=
  match args with
  | ThreeArgs _ _ a2 => a2
  | _ => VUndefined
  end.

(** An entry [{ type, listener, options }] of the queue, and the arguments
    of the [addEventListener] or [removeEventListener] call that it
    records. *)
Record Registration : Type := mkReg {
  reg_type : string;
  reg_listener : Listener;
  reg_options : JsVal
}.

Definition args_of (r : Registration) : Args :=
  ThreeArgs (VString (reg_type r)) (reg_listener r) (reg_options r).

Record HistoryOps : Type := mkHistory {
  pushState : Fn;
  replaceState : Fn;
  back : Fn;
  forward : Fn;
  go : Fn
}.

(** [saved.window] *)
Record SavedWindow : Type := mkSavedWindow {
  saved_addEventListener : Fn;
  saved_removeEventListener : Fn;
  locationAssign : Fn;
  locationReplace : Fn
}.

(** [saved.killSwitchHandlers] *)
Record Handlers : Type := mkHandlers {
  handler_hashchange : option Listener;
  handler_popstate : option Listener
}.

(** The array [saved.listeners].  [push] changes the array in place, while
    [filter] and [[]] make a new one: [queue_id] tells the arrays apart, a
    new array taking the number after that of the array it replaces. *)
Record Queue : Type := mkQueue {
  queue_id : nat;
  queue_items : list Registration
}.

(** The object [window["__routingKillSwitch__"]].  A field that was never
    assigned is [None] ([false] for [enabled], which is only tested). *)
Record Saved : Type := mkSaved {
  enabled : bool;
  saved_history : option HistoryOps;
  saved_window : option SavedWindow;
  listeners : option Queue;
  blockedEvents : option (list string);
  killSwitchHandlers : option Handlers
}.

(** The part of [window] that the kill-switch reads and writes. *)
Record Window : Type := mkWindow {
  history : HistoryOps;
  addEventListener : Fn;
  removeEventListener : Fn;
  location_assign : Fn;
  location_replace : Fn;
  routingKillSwitch : option Saved
}.

(** What the kill-switch does to the outside: calls of functions it did not
    create, and page navigation. *)
Inductive GuardEvent : Type :=
| EvCall (f : Fn) (args : Args)
| EvSetHref (target : string)
| EvReload
| EvSetTimeoutReload.

Definition emptySaved : Saved := mkSaved false None None None None None.

Definition set_enabled (b : bool) (s : Saved) : Saved :=
  mkSaved b (saved_history s) (saved_window s) (listeners s)
    (blockedEvents s) (killSwitchHandlers s).

Definition set_saved_history (h : HistoryOps) (s : Saved) : Saved :=
  mkSaved (enabled s) (Some h) (saved_window s) (listeners s)
    (blockedEvents s) (killSwitchHandlers s).

Definition set_saved_window (sw : SavedWindow) (s : Saved) : Saved :=
  mkSaved (enabled s) (saved_history s) (Some sw) (listeners s)
    (blockedEvents s) (killSwitchHandlers s).

Definition set_listeners (q : Queue) (s : Saved) : Saved :=
  mkSaved (enabled s) (saved_history s) (saved_window s) (Some q)
    (blockedEvents s) (killSwitchHandlers s).

Definition set_blockedEvents (b : list string) (s : Saved) : Saved :=
  mkSaved (enabled s) (saved_history s) (saved_window s) (listeners s)
    (Some b) (killSwitchHandlers s).

Definition set_killSwitchHandlers (h : Handlers) (s : Saved) : Saved :=
  mkSaved (enabled s) (saved_history s) (saved_window s) (listeners s)
    (blockedEvents s) (Some h).

Definition set_history (h : HistoryOps) (w : Window) : Window :=
  mkWindow h (addEventListener w) (removeEventListener w) (location_assign w)
    (location_replace w) (routingKillSwitch w).

Definition set_addEventListener (f : Fn) (w : Window) : Window :=
  mkWindow (history w) f (removeEventListener w) (location_assign w)
    (location_replace w) (routingKillSwitch w).

Definition set_removeEventListener (f : Fn) (w : Window) : Window :=
  mkWindow (history w) (addEventListener w) f (location_assign w)
    (location_replace w) (routingKillSwitch w).

Definition set_routingKillSwitch (s : Saved) (w : Window) : Window :=
  mkWindow (history w) (addEventListener w) (removeEventListener w)
    (location_assign w) (location_replace w) (Some s).

(** [new Set(["popstate", "hashchange"])] and [set.has(type)] *)
Definition blocked_set : list string := ["popstate"; "hashchange"].

Definition set_has (s : list string) (x : string) : bool :=
  existsb (String.eqb x) s.

(** [set.has(type)] for any value: the set holds strings only. *)
Definition has_type (s : list string) (type : JsVal) : option string :=
  match type with
  | VString t => if set_has s t then Some t else None
  | _ => None
  end.

(** A new array with these items, to be assigned to [saved.listeners]. *)
Definition new_array (s : Saved) (items : list Registration) : Queue :=
  mkQueue (match listeners s with
           | Some q => S (queue_id q)
           | None => 0
           end) items.

(** The handlers that the next call of [disableSpaRouting] creates. *)
Definition new_onHashAttempt (s : Saved) : Listener :=
  OnHashAttempt
    (match killSwitchHandlers s with
     | Some (mkHandlers (Some (OnHashAttempt n)) _) => S n
     | _ => 0
     end).

Definition new_onPopState (s : Saved) : Listener :=
  OnPopState
    (match killSwitchHandlers s with
     | Some (mkHandlers _ (Some (OnPopState n))) => S n
     | _ => 0
     end).

Section Guard.

(** Whether the setter of [window.location.href] accepts a string; it throws
    on one that does not parse as a URL. *)
Variable href_ok : string -> bool.

Local Abbreviation G := (Js.M GuardEvent Window).

Definition TypeError : Exn := JsError "TypeError".

(** Reading a property of [undefined] throws. *)
Definition defined {A} (o : option A) : G A :=
  match o with
  | Some a => ret a
  | None => throw TypeError
  end.

(** [window.location.href = target] *)
Definition set_href (target : string) : G unit :=
  if href_ok target then emit (EvSetHref target)
  else throw (JsError "SyntaxError").

(** [window.location.reload()] *)
Definition reload : G unit := emit EvReload.

Definition hardNavigate (url : JsVal) : G unit :=
  try_catch
    (target <- (if not_nullish url then
                  s <- lift (js_String url) ;; ret (Some s)
                else ret None) ;;
     match target with
     | Some (String c rest) => set_href (String c rest)
     | Some EmptyString => reload
     | None => reload
     end)
    (fun _ => reload).

(** The [saved] object that the installed closures close over: the object
    under the key, which the code makes once and never replaces. *)
Definition the_saved : G Saved :=
  w <- get ;; defined (routingKillSwitch w).

Definition update_saved (f : Saved -> Saved) : G unit :=
  w <- get ;;
  s <- defined (routingKillSwitch w) ;;
  put (set_routingKillSwitch (f s) w).

(** The engine ends a chain of nested calls that is too deep. *)
Definition RangeError : Exn := JsError "RangeError".

(** The bodies of the installed closures.  [call f args] is [f.call(...)]
    for a function value [f]. *)
Section Closures.
Variable call : Fn -> Args -> G unit.

(** Lines 280-286 *)
Definition ks_addEventListener (args : Args) : G unit :=
  saved <- the_saved ;;
  blocked <- defined (blockedEvents saved) ;;
  match has_type blocked (arg0 args) with
  | Some type =>
      q <- defined (listeners saved) ;;
      update_saved
        (set_listeners
           (mkQueue (queue_id q)
              (queue_items q ++ [mkReg type (arg1 args) (arg2 args)])%list))
  | None =>
      sw <- defined (saved_window saved) ;;
      call (saved_addEventListener sw)
        (ThreeArgs (arg0 args) (arg1 args) (arg2 args))
  end.

(** Lines 289-298 *)
Definition ks_removeEventListener (args : Args) : G unit :=
  saved <- the_saved ;;
  blocked <- defined (blockedEvents saved) ;;
  match has_type blocked (arg0 args) with
  | Some type =>
      q <- defined (listeners saved) ;;
      update_saved
        (set_listeners
           (new_array saved
              (filter (fun x => negb (String.eqb (reg_type x) type
                                      && Listener_eqb (reg_listener x)
                                           (arg1 args)))
                 (queue_items q))))
  | None =>
      sw <- defined (saved_window saved) ;;
      call (saved_removeEventListener sw)
        (ThreeArgs (arg0 args) (arg1 args) (arg2 args))
  end.

(** Lines 264-277: call the saved original, then schedule a reload. *)
Definition ks_traverse (pick : HistoryOps -> Fn) (args : Args) : G unit :=
  saved <- the_saved ;;
  h <- defined (saved_history saved) ;;
  call (pick h) args ;;
  emit EvSetTimeoutReload.

End Closures.

(** [f.call(...)] with [stack] nested calls left before the engine throws
    [RangeError].  A closure of the kill-switch runs its body, whose own call
    of a saved function is one level deeper. *)
Fixpoint invoke (stack : nat) (f : Fn) (args : Args) : G unit :=
  match stack with
  | 0 => throw RangeError
  | S deeper =>
      match f with
      | Builtin _ => emit (EvCall f args)
      | Bound g => invoke deeper g args
      | KsPushState => hardNavigate (arg2 args)
      | KsReplaceState => hardNavigate (arg2 args)
      | KsBack => ks_traverse (invoke deeper) back NoArgs
      | KsForward => ks_traverse (invoke deeper) forward NoArgs
      | KsGo => ks_traverse (invoke deeper) go (OneArg (arg0 args))
      | KsAddEventListener => ks_addEventListener (invoke deeper) args
      | KsRemoveEventListener => ks_removeEventListener (invoke deeper) args
      end
  end.

Definition disableSpaRouting (stack : nat) : G unit :=
  w <- get ;;
  if match routingKillSwitch w with
     | Some s => enabled s
     | None => false
     end
  then ret tt
  else
    let hist := history w in
    (match routingKillSwitch w with
     | Some _ => ret tt
     | None => put (set_routingKillSwitch emptySaved w)
     end) ;;
    update_saved (set_enabled true) ;;
    update_saved (set_saved_history
      (mkHistory (pushState hist) (replaceState hist) (back hist)
         (forward hist) (go hist))) ;;
    update_saved (set_saved_window
      (mkSavedWindow (addEventListener w) (removeEventListener w)
         (Bound (location_assign w)) (Bound (location_replace w)))) ;;
    update_saved (fun s =>
      match listeners s with
      | Some _ => s
      | None => set_listeners (new_array s []) s
      end) ;;
    update_saved (set_blockedEvents blocked_set) ;;
    w1 <- get ;;
    put (set_history
           (mkHistory KsPushState KsReplaceState KsBack KsForward KsGo) w1) ;;
    w2 <- get ;;
    put (set_addEventListener KsAddEventListener w2) ;;
    w3 <- get ;;
    put (set_removeEventListener KsRemoveEventListener w3) ;;
    saved <- the_saved ;;
    let onHashAttempt := new_onHashAttempt saved in
    update_saved (fun s =>
      set_killSwitchHandlers
        (mkHandlers (Some onHashAttempt)
           (match killSwitchHandlers s with
            | Some h => handler_popstate h
            | None => None
            end)) s) ;;
    saved <- the_saved ;;
    sw <- defined (saved_window saved) ;;
    invoke stack (saved_addEventListener sw)
      (ThreeArgs (VString "hashchange") onHashAttempt (VBool true)) ;;
    saved <- the_saved ;;
    let onPopState := new_onPopState saved in
    update_saved (fun s =>
      set_killSwitchHandlers
        (mkHandlers (match killSwitchHandlers s with
                     | Some h => handler_hashchange h
                     | None => None
                     end)
           (Some onPopState)) s) ;;
    saved <- the_saved ;;
    sw <- defined (saved_window saved) ;;
    invoke stack (saved_addEventListener sw)
      (ThreeArgs (VString "popstate") onPopState (VBool true)).

(** Lines 365-369: the loop over the array [array], which is
    [saved.listeners] when the loop starts.  The loop reads the array as it
    is at each step, so that it also visits what a call has pushed onto it;
    once [saved.listeners] is another array, [array] stays as it was last
    seen.  [steps] bounds the number of steps. *)
Fixpoint replay (stack steps : nat) (array : nat) (seen : list Registration)
  (i : nat) : G unit :=
  match steps with
  | 0 => diverge
  | S steps' =>
      saved <- the_saved ;;
      let items :=
        match listeners saved with
        | Some q => if Nat.eqb (queue_id q) array then queue_items q else seen
        | None => seen
        end in
      match nth_error items i with
      | None => ret tt
      | Some r =>
          sw <- defined (saved_window saved) ;;
          invoke stack (saved_addEventListener sw) (args_of r) ;;
          replay stack steps' array items (S i)
      end
  end.

Definition restoreSpaRouting (stack steps : nat) : G unit :=
  w <- get ;;
  match routingKillSwitch w with
  | None => ret tt
  | Some saved =>
      if negb (enabled saved) then ret tt
      else
        (match saved_history saved with
         | Some h =>
             put (set_history
                    (mkHistory (pushState h) (replaceState h) (back h)
                       (forward h) (go h)) w)
         | None => ret tt
         end) ;;
        (match saved_window saved with
         | Some sw =>
             w1 <- get ;;
             put (set_addEventListener (saved_addEventListener sw) w1) ;;
             w2 <- get ;;
             put (set_removeEventListener (saved_removeEventListener sw) w2)
         | None => ret tt
         end) ;;
        saved <- the_saved ;;
        (match killSwitchHandlers saved with
         | Some (mkHandlers (Some NoListener) _) => ret tt
         | Some (mkHandlers (Some h) _) =>
             sw <- defined (saved_window saved) ;;
             invoke stack (saved_removeEventListener sw)
               (ThreeArgs (VString "hashchange") h (VBool true))
         | _ => ret tt
         end) ;;
        saved <- the_saved ;;
        (match killSwitchHandlers saved with
         | Some (mkHandlers _ (Some NoListener)) => ret tt
         | Some (mkHandlers _ (Some h)) =>
             sw <- defined (saved_window saved) ;;
             invoke stack (saved_removeEventListener sw)
               (ThreeArgs (VString "popstate") h (VBool true))
         | _ => ret tt
         end) ;;
        saved <- the_saved ;;
        (match listeners saved with
         | Some (mkQueue array (r0 :: rs)) =>
             replay stack steps array (r0 :: rs) 0 ;;
             update_saved (fun s => set_listeners (new_array s []) s)
         | _ => ret tt
         end) ;;
        update_saved (set_enabled false)
  end.

(** What the page's scripts can do with the guarded operations: a call goes to
    whatever function the property holds when the call is made. *)
Inductive Action : Type :=
| CallDisableSpaRouting
| CallRestoreSpaRouting
| CallAddEventListener (r : Registration)
| CallRemoveEventListener (r : Registration)
| CallPushState (url : JsVal)
| CallReplaceState (url : JsVal)
| CallBack
| CallForward
| CallGo (delta : JsVal).

Definition perform (stack steps : nat) (a : Action) : G unit :=
  match a with
  | CallDisableSpaRouting => disableSpaRouting stack
  | CallRestoreSpaRouting => restoreSpaRouting stack steps
  | CallAddEventListener r =>
      w <- get ;; invoke stack (addEventListener w) (args_of r)
  | CallRemoveEventListener r =>
      w <- get ;; invoke stack (removeEventListener w) (args_of r)
  | CallPushState url =>
      w <- get ;;
      invoke stack (pushState (history w)) (ThreeArgs VUndefined NoListener url)
  | CallReplaceState url =>
      w <- get ;;
      invoke stack (replaceState (history w))
        (ThreeArgs VUndefined NoListener url)
  | CallBack => w <- get ;; invoke stack (back (history w)) NoArgs
  | CallForward => w <- get ;; invoke stack (forward (history w)) NoArgs
  | CallGo delta => w <- get ;; invoke stack (go (history w)) (OneArg delta)
  end.

Definition perform_all (stack steps : nat) (acts : list Action) : G unit :=
  for_of acts (perform stack steps).

End Guard.
(** * Vocabulary of the properties *)

(** ** Requests and answers *)

(** The request that [uploadDBZip] sends for one input file of
    [uploadRepos]. *)
Definition upload_request (net : Net) (file : JsFile) : Request :=
  mkRequest POST
    ("/estorage/"
       ++ encodeURIComponent net (replace_zip_suffix (file_name file)))
    None (Some (mkPart "file" file (file_name file))).

(** The requests of [listDBDir] and [fetchDBFileBytes]. *)
Definition listing_request (net : Net) (db path : string) : Request :=
  mkRequest GET
    ("/estorage/" ++ encodeURIComponent net db ++ "/" ++ encodePath net path)
    (Some "application/json") None.

Definition bytes_request (net : Net) (db path : string) : Request :=
  mkRequest GET
    ("/estorage/" ++ encodeURIComponent net db ++ "/" ++ encodePath net path)
    None None.

(** The request for one asset of a database. *)
Definition asset_request (net : Net) (db name : string) : Request :=
  bytes_request net db ("assets/" ++ name).

(** What [fetch] followed by [ensureOk] gives for a request. *)
Definition checked (net : Net) (label : string) (r : Request)
  : result (Response (Json net)) :=
  match fetch net r with
  | Ret res =>
      if res_ok res then Ret res
      else Raise (JsError (label ++ " failed: "
                             ++ string_of_nat (res_status res) ++ " "
                             ++ res_statusText res))
  | Raise e => Raise e
  end.

(** What [listDBDir] and [fetchDBFileBytes] return or throw. *)
Definition listed (net : Net) (db path : string) : result (list DirEntry) :=
  match checked net "listDBDir" (listing_request net db path) with
  | Ret res =>
      match res_json res with
      | Ret j => Ret (entries_of_json net j)
      | Raise e => Raise e
      end
  | Raise e => Raise e
  end.

Definition fetched (net : Net) (db path : string) : result (list byte) :=
  match checked net "fetchDBFileBytes" (bytes_request net db path) with
  | Ret res => res_arrayBuffer res
  | Raise e => Raise e
  end.

(** ** The local store *)

Definition present_as_file {FS} (pfs : Pfs FS) (fs : FS) (path : string)
  : bool :=
  match pfs_stat pfs fs path with
  | Ret st => String.eqb (st_type st) "file"
  | Raise _ => false
  end.

Definition present_as_dir {FS} (pfs : Pfs FS) (fs : FS) (path : string)
  : bool :=
  match pfs_stat pfs fs path with
  | Ret st => String.eqb (st_type st) "dir"
  | Raise _ => false
  end.

(** The fetch of an asset fails, or the write of the fetched bytes does. *)
Definition fetch_or_write_fails {FS} (pfs : Pfs FS) (net : Net)
  (db name : string) (fs : FS) : bool :=
  match fetched net db ("assets/" ++ name) with
  | Ret data =>
      match pfs_writeFile pfs fs (assetPath db name) data with
      | Ret _ => false
      | Raise _ => true
      end
  | Raise _ => true
  end.

(** A filesystem keeps its files when no successful [mkdir] or [writeFile]
    turns a path that is a file into something else. *)
Definition keeps_files {FS} (pfs : Pfs FS) : Prop :=
  (forall s q s' p,
      pfs_mkdir pfs s q = Ret s' ->
      present_as_file pfs s p = true -> present_as_file pfs s' p = true) /\
  (forall s q d s' p,
      pfs_writeFile pfs s q d = Ret s' ->
      present_as_file pfs s p = true -> present_as_file pfs s' p = true).

(** ** Events of a sync *)

Definition is_write (ev : Event) : bool :=
  match ev with
  | EvWriteFile _ _ => true
  | _ => false
  end.

(** The three [console.error] lines of [downloadAssets]. *)
Definition write_failed (db name : string) : Event :=
  EvError ("Failed to write to lightningfs for " ++ db ++ "/assets/" ++ name).

Definition mkdir_failed (db : string) : Event :=
  EvError ("Failed to make a lightningfs " ++ db ++ " folder").

Definition find_failed (db : string) (e : Exn) : list Event :=
  [EvError ("Failed to find asset dir for " ++ db); EvErrorExn e].

(** The events that concern one asset: its fetch, and a write to its path. *)
Definition touches (net : Net) (db name : string) (ev : Event) : Prop :=
  ev = EvFetch (asset_request net db name) \/
  exists d, ev = EvWriteFile (assetPath db name) d.

(** The number of requests sent to a URL. *)
Definition fetch_count (url : string) (tr : list Event) : nat :=
  length (filter (fun ev =>
                    match ev with
                    | EvFetch r => String.eqb (req_url r) url
                    | _ => false
                    end) tr).

(** The lines written with [console.log]. *)
Definition console_lines (tr : list Event) : list string :=
  flat_map (fun ev => match ev with EvLog line => [line] | _ => [] end) tr.

(** A computation that only observes: it leaves the state as it found it and
    emits only events of a given kind. *)
Definition observes {E St A} (P : E -> Prop) (s : St) (o : outcome E St A)
  : Prop :=
  match o with
  | Done _ s' tr => s' = s /\ Forall P tr
  | Threw _ s' tr => s' = s /\ Forall P tr
  | Diverged tr => Forall P tr
  end.

Definition read_or_log (ev : Event) : Prop :=
  match ev with
  | EvStat _ | EvReaddir _ | EvLog _ => True
  | _ => False
  end.

(** ** Renderings of a tree *)

Definition child_path (dir name : string) : string :=
  if String.eqb dir "/" then "/" ++ name else dir ++ "/" ++ name.

Definition connector (isLast : bool) : string :=
  if isLast then "└── " else "├── ".

Definition indent (isLast : bool) : string :=
  if isLast then "    " else "│   ".

(** What is being rendered: a directory, or the entries of a directory from
    position [index] on, out of [total]. *)
Inductive Walk : Type :=
| WalkDir (dir prefix : string)
| WalkEntries (dir prefix : string) (total index : nat) (names : list string).

(** The rendering of a subtree in depth-first pre-order: a directory is read
    once; its entries are taken in the order read; each entry gives one line,
    followed at once, when it is a directory, by the rendering of that
    directory one level deeper. *)
Inductive Rendered {FS} (pfs : Pfs FS) (fs : FS)
  : Walk -> list Event -> Prop :=
| Rendered_dir dir prefix names out :
    pfs_readdir pfs fs dir = Ret names ->
    Rendered pfs fs (WalkEntries dir prefix (length names) 0 names) out ->
    Rendered pfs fs (WalkDir dir prefix) (EvReaddir dir :: out)
| Rendered_end dir prefix total index :
    Rendered pfs fs (WalkEntries dir prefix total index []) []
| Rendered_leaf dir prefix total index name names st out :
    pfs_stat pfs fs (child_path dir name) = Ret st ->
    String.eqb (st_type st) "dir" = false ->
    Rendered pfs fs (WalkEntries dir prefix total (S index) names) out ->
    Rendered pfs fs (WalkEntries dir prefix total index (name :: names))
      (EvStat (child_path dir name)
       :: EvLog (prefix ++ connector (Nat.eqb index (total - 1)) ++ name)
       :: out)
| Rendered_subdir dir prefix total index name names st sub out :
    pfs_stat pfs fs (child_path dir name) = Ret st ->
    String.eqb (st_type st) "dir" = true ->
    Rendered pfs fs
      (WalkDir (child_path dir name)
         (prefix ++ indent (Nat.eqb index (total - 1)))) sub ->
    Rendered pfs fs (WalkEntries dir prefix total (S index) names) out ->
    Rendered pfs fs (WalkEntries dir prefix total index (name :: names))
      (EvStat (child_path dir name)
       :: EvLog (prefix ++ connector (Nat.eqb index (total - 1)) ++ name)
       :: sub ++ out)%list.

(** [printTree] (or its loop, from an index on) completes with [out] from
    some amount of fuel on. *)
Definition runs_to {FS} (pfs : Pfs FS) (fs : FS) (w : Walk)
  (out : list Event) : Prop :=
  exists fuel, forall fuel', fuel <= fuel' ->
    match w with
    | WalkDir dir prefix =>
        printTree pfs (S fuel') dir prefix fs = Done tt fs out
    | WalkEntries dir prefix total index names =>
        forall entries,
          total = length entries ->
          skipn index entries = names ->
          for_range (length names) index
            (printEntry pfs (printTree pfs (S fuel')) entries dir prefix) fs
          = Done tt fs out
    end.

(** ** Stores of the reference filesystem *)

(** A rewriting of the children of a directory that turns no file into
    something else and leaves every subdirectory as it is. *)
Definition gentle
  (f : list (string * MemFS.node) -> result (list (string * MemFS.node)))
  : Prop :=
  forall cs cs', f cs = Ret cs' ->
    forall k,
      match MemFS.child k cs with
      | Some (MemFS.File _) =>
          exists d, MemFS.child k cs' = Some (MemFS.File d)
      | Some (MemFS.Dir ds) => MemFS.child k cs' = Some (MemFS.Dir ds)
      | None => True
      end.

(** The names that a directory can hold: a non-empty string without a
    slash. *)
Fixpoint has_slash (s : string) : bool :=
  match s with
  | EmptyString => false
  | String c rest => Ascii.eqb c "/" || has_slash rest
  end.

Definition valid_name (name : string) : bool :=
  negb (String.eqb name "") && negb (has_slash name).

Fixpoint well_formed (n : MemFS.node) : Prop :=
  match n with
  | MemFS.File _ => True
  | MemFS.Dir cs =>
      (fix all (l : list (string * MemFS.node)) : Prop :=
         match l with
         | [] => True
         | (k, c) :: rest => valid_name k = true /\ well_formed c /\ all rest
         end) cs
  end.

Fixpoint height (n : MemFS.node) : nat :=
  match n with
  | MemFS.File _ => 0
  | MemFS.Dir cs =>
      S ((fix highest (l : list (string * MemFS.node)) : nat :=
            match l with
            | [] => 0
            | (_, c) :: rest => Nat.max (height c) (highest rest)
            end) cs)
  end.

(** ** Scenarios of the mirror *)

Definition b_png : list byte := [x89; x50; x4e; x47; x0d].

(** A database with two assets. *)
Definition two_assets_site : list (string * Resource) :=
  [ ("/estorage/mydb/assets",
     Listing [EFile "a.png" "abc"; EFile "b.png" "def"]);
    ("/estorage/mydb/assets/a.png", Bytes a_png);
    ("/estorage/mydb/assets/b.png", Bytes b_png) ].

(** A server that lists the two assets and holds the bytes of the second
    only. *)
Definition second_only_site : list (string * Resource) :=
  [ ("/estorage/mydb/assets",
     Listing [EFile "a.png" "abc"; EFile "b.png" "def"]);
    ("/estorage/mydb/assets/b.png", Bytes b_png) ].

(** A server that lists [a.png] and does not hold its bytes. *)
Definition listed_only_site : list (string * Resource) :=
  [ ("/estorage/mydb/assets", Listing [EFile "a.png" "abc"]) ].

(** A server that accepts every upload. *)
Definition accepting : Net :=
  mkNet unit
    (fun _ => Ret (mkResponse true 200 "OK" (Ret tt) (Ret [])))
    percent_encode (fun _ => []).

(** The store in which the name of the database is taken by a file. *)
Definition mydb_is_a_file : MemFS.node :=
  MemFS.Dir [("mydb", MemFS.File [])].

(** The store in which [/mydb/assets] exists and is empty. *)
Definition assets_dir_ready : MemFS.node :=
  MemFS.Dir [("mydb", MemFS.Dir [("assets", MemFS.Dir [])])].

(** The store in which [a.png] is already mirrored. *)
Definition a_png_mirrored : MemFS.node :=
  MemFS.Dir
    [("mydb",
      MemFS.Dir [("assets", MemFS.Dir [("a.png", MemFS.File a_png)])])].

(** A store with a nested directory and two files. *)
Definition small_tree : MemFS.node :=
  MemFS.Dir
    [ ("mydb",
       MemFS.Dir
         [("assets",
           MemFS.Dir [("a.png", MemFS.File a_png);
                      ("b.png", MemFS.File b_png)])]);
      ("notes.txt", MemFS.File []) ].

(** ** Outcomes of the uploads and of two runs *)

Definition succeeds {A} (r : result A) : bool :=
  match r with
  | Ret _ => true
  | Raise _ => false
  end.

(** What [uploadDBZip] returns or throws for one input file of
    [uploadRepos]. *)
Definition uploaded (net : Net) (file : JsFile) : result (Json net) :=
  match checked net "uploadDBZip" (upload_request net file) with
  | Ret res => res_json res
  | Raise e => Raise e
  end.

(** A server that accepts the upload of [graph1] and of nothing else. *)
Definition graph1_only : Net := server [("/estorage/graph1", Listing [])].

(** The store in which both assets of [mydb] are mirrored. *)
Definition both_mirrored : MemFS.node :=
  MemFS.Dir
    [("mydb",
      MemFS.Dir
        [("assets",
          MemFS.Dir [("a.png", MemFS.File a_png);
                     ("b.png", MemFS.File b_png)])])].

(** A successful [mkdir], or a successful [writeFile], at [q] does not make
    [p] a file. *)
Definition mkdir_leaves_absent {FS} (pfs : Pfs FS) (p q : string) : Prop :=
  forall s s',
    pfs_mkdir pfs s q = Ret s' ->
    present_as_file pfs s p = false -> present_as_file pfs s' p = false.

Definition writeFile_leaves_absent {FS} (pfs : Pfs FS) (p q : string)
  : Prop :=
  forall s d s',
    pfs_writeFile pfs s q d = Ret s' ->
    present_as_file pfs s p = false -> present_as_file pfs s' p = false.

(** A rewriting of the children of a directory of the reference filesystem
    that changes at most the child [base], which it sets to [v]. *)
Definition only_at (base : string) (v : MemFS.node)
  (f : list (string * MemFS.node) -> result (list (string * MemFS.node)))
  : Prop :=
  forall cs cs', f cs = Ret cs' ->
    forall k, MemFS.child k cs' = MemFS.child k cs \/
              (k = base /\ MemFS.child k cs' = Some v).

(** The event [ev] occurs exactly once in a trace. *)
Definition exactly_once {E} (ev : E) (tr : list E) : Prop :=
  exists before after,
    tr = (before ++ ev :: after)%list /\ ~ In ev before /\ ~ In ev after.

(** A name that the paths of a filesystem keep as a name: not [.] and not
    [..], which they resolve away. *)
Definition plain_name (name : string) : bool :=
  valid_name name
  && negb (String.eqb name ".") && negb (String.eqb name "..").
(** ** The kill-switch *)

Definition guard_enabled (w : Window) : bool :=
  match routingKillSwitch w with
  | Some s => enabled s
  | None => false
  end.

Definition is_builtin (f : Fn) : bool :=
  match f with
  | Builtin _ => true
  | _ => false
  end.

(** The operations of the window are functions that the kill-switch did not
    create: none of its closures has been put back into [history] or
    [window]. *)
Definition builtin_operations (w : Window) : bool :=
  is_builtin (pushState (history w))
  && is_builtin (replaceState (history w))
  && is_builtin (back (history w))
  && is_builtin (forward (history w))
  && is_builtin (go (history w))
  && is_builtin (addEventListener w)
  && is_builtin (removeEventListener w).

(** The [saved] object, as [disableSpaRouting] finds or makes it. *)
Definition saved_of (w : Window) : Saved :=
  match routingKillSwitch w with
  | Some s => s
  | None => emptySaved
  end.

(** The array of the registrations waiting to be replayed, as
    [disableSpaRouting] finds or makes it, and its items. *)
Definition queue (w : Window) : Queue :=
  match listeners (saved_of w) with
  | Some q => q
  | None => mkQueue 0 []
  end.

Definition queued (w : Window) : list Registration := queue_items (queue w).

(** A registration for one of the two blocked event types. *)
Definition guarded (r : Registration) : bool :=
  set_has blocked_set (reg_type r).

Definition is_restore (a : Action) : bool :=
  match a with
  | CallRestoreSpaRouting => true
  | _ => false
  end.

(** What [hardNavigate] does with the page, by the value it is given. *)
Definition navigation (href_ok : string -> bool) (url : JsVal) : GuardEvent :=
  if not_nullish url then
    match js_String url with
    | Ret (String c rest) =>
        if href_ok (String c rest) then EvSetHref (String c rest) else EvReload
    | Ret EmptyString => EvReload
    | Raise _ => EvReload
    end
  else EvReload.

(** The call [f.call(w, type, listener, options)] of an outside function
    [f], as an event. *)
Definition EvListenerCall (f : Fn) (r : Registration) : GuardEvent :=
  EvCall f (args_of r).

(** The two handlers of the epoch that [disableSpaRouting] opens in [w0]. *)
Definition onHashAttempt_of (w0 : Window) : Listener :=
  new_onHashAttempt (saved_of w0).

Definition onPopState_of (w0 : Window) : Listener :=
  new_onPopState (saved_of w0).

(** The [saved] object and the window inside the epoch that
    [disableSpaRouting] opened in [w0], with the array [q] waiting to be
    replayed. *)
Definition saved_in_epoch (w0 : Window) (on : bool) (q : Queue) : Saved :=
  mkSaved on (Some (history w0))
    (Some (mkSavedWindow (addEventListener w0) (removeEventListener w0)
             (Bound (location_assign w0)) (Bound (location_replace w0))))
    (Some q) (Some blocked_set)
    (Some (mkHandlers (Some (onHashAttempt_of w0))
             (Some (onPopState_of w0)))).

Definition in_epoch (w0 : Window) (q : Queue) : Window :=
  mkWindow (mkHistory KsPushState KsReplaceState KsBack KsForward KsGo)
    KsAddEventListener KsRemoveEventListener
    (location_assign w0) (location_replace w0)
    (Some (saved_in_epoch w0 true q)).

(** The array that [restoreSpaRouting] leaves: the same array when it was
    empty, a new empty one otherwise. *)
Definition emptied (q : Queue) : Queue :=
  match queue_items q with
  | [] => q
  | _ :: _ => mkQueue (S (queue_id q)) []
  end.

(** The window after [restoreSpaRouting] closed that epoch with [q] in the
    queue. *)
Definition after_epoch (w0 : Window) (q : Queue) : Window :=
  mkWindow (history w0) (addEventListener w0) (removeEventListener w0)
    (location_assign w0) (location_replace w0)
    (Some (saved_in_epoch w0 false (emptied q))).

(** The calls by which [disableSpaRouting] installs its own handlers, and
    those by which [restoreSpaRouting] removes them. *)
Definition install_handlers (w0 : Window) : list GuardEvent :=
  [ EvListenerCall (addEventListener w0)
      (mkReg "hashchange" (onHashAttempt_of w0) (VBool true));
    EvListenerCall (addEventListener w0)
      (mkReg "popstate" (onPopState_of w0) (VBool true)) ].

Definition remove_handlers (w0 : Window) : list GuardEvent :=
  [ EvListenerCall (removeEventListener w0)
      (mkReg "hashchange" (onHashAttempt_of w0) (VBool true));
    EvListenerCall (removeEventListener w0)
      (mkReg "popstate" (onPopState_of w0) (VBool true)) ].

(** What one call made inside an epoch leaves in the queue, and what it does
    to the outside. *)
Definition same_registration (r x : Registration) : bool :=
  String.eqb (reg_type x) (reg_type r)
  && Listener_eqb (reg_listener x) (reg_listener r).

Definition queue_after (a : Action) (q : Queue) : Queue :=
  match a with
  | CallAddEventListener r =>
      if guarded r then mkQueue (queue_id q) (queue_items q ++ [r])%list
      else q
  | CallRemoveEventListener r =>
      if guarded r
      then mkQueue (S (queue_id q))
             (filter (fun x => negb (same_registration r x)) (queue_items q))
      else q
  | _ => q
  end.

Definition queue_after_all (acts : list Action) (q : Queue) : Queue :=
  fold_left (fun q a => queue_after a q) acts q.

Definition effects_in_epoch (href_ok : string -> bool) (w0 : Window)
  (a : Action) : list GuardEvent :=
  match a with
  | CallAddEventListener r =>
      if guarded r then [] else [EvListenerCall (addEventListener w0) r]
  | CallRemoveEventListener r =>
      if guarded r then [] else [EvListenerCall (removeEventListener w0) r]
  | CallPushState url => [navigation href_ok url]
  | CallReplaceState url => [navigation href_ok url]
  | CallBack => [EvCall (back (history w0)) NoArgs; EvSetTimeoutReload]
  | CallForward => [EvCall (forward (history w0)) NoArgs; EvSetTimeoutReload]
  | CallGo delta =>
      [EvCall (go (history w0)) (OneArg delta); EvSetTimeoutReload]
  | _ => []
  end.

(** A page that has not loaded the kill-switch before, three registrations
    and a short script. *)
Definition fresh_window : Window :=
  mkWindow (mkHistory (Builtin 0) (Builtin 1) (Builtin 2) (Builtin 3)
              (Builtin 4))
    (Builtin 5) (Builtin 6) (Builtin 7) (Builtin 8) None.

Definition router_popstate : Registration :=
  mkReg "popstate" (AppListener 1) VUndefined.

Definition router_hashchange : Registration :=
  mkReg "hashchange" (AppListener 2) (VBool false).

Definition on_click : Registration :=
  mkReg "click" (AppListener 3) VUndefined.

Definition page_script : list Action :=
  [ CallAddEventListener router_popstate;
    CallDisableSpaRouting;
    CallPushState (VString "/page/a");
    CallAddEventListener on_click;
    CallBack ].

(** That page after an epoch, when it has put back into [window] the
    patched [addEventListener] that it had kept. *)
Definition stale_window : Window :=
  mkWindow (history fresh_window) KsAddEventListener
    (removeEventListener fresh_window) (location_assign fresh_window)
    (location_replace fresh_window)
    (Some (saved_in_epoch fresh_window false (mkQueue 0 []))).
(** ** Further vocabulary: the client *)

(** The error that [ensureOk] throws for a response. *)
Definition http_error {J} (label : string) (res : Response J) : Exn :=
  JsError (label ++ " failed: " ++ string_of_nat (res_status res) ++ " "
             ++ res_statusText res).

(** The request of [listDBs], and what [listDBs] returns or throws. *)
Definition databases_request : Request :=
  mkRequest GET "/estorage" None None.

Definition databases (net : Net) (names_of_json : Json net -> list string)
  : result (list string) :=
  match checked net "listDBs" databases_request with
  | Ret res =>
      match res_json res with
      | Ret j => Ret (names_of_json j)
      | Raise e => Raise e
      end
  | Raise e => Raise e
  end.

(** The request of [uploadDBZip]. *)
Definition zip_request (net : Net) (dbName : string) (zip : JsFile)
  : Request :=
  mkRequest POST ("/estorage/" ++ encodeURIComponent net dbName) None
    (Some (mkPart "file" zip (file_name zip))).

(** The request by which [getNewRepos] fetches the content of a database. *)
Definition sqlite_request (net : Net) (db : string) : Request :=
  bytes_request net db "db.sqlite".

(** [n] slashes. *)
Fixpoint slashes (n : nat) : string :=
  match n with
  | 0 => ""
  | S n' => String "/" (slashes n')
  end.

(** ** Further vocabulary: the mirror *)

(** An event that neither sends a request nor changes the store. *)
Definition quiet (ev : Event) : Prop :=
  match ev with
  | EvFetch _ | EvMkdir _ | EvWriteFile _ _ => False
  | _ => True
  end.


Definition is_fetch (ev : Event) : bool :=
  match ev with
  | EvFetch _ => true
  | _ => false
  end.

(** A store that rejects every operation. *)
Definition EIO : Exn := JsError "EIO".

Definition unavailable : Pfs unit :=
  mkPfs unit (fun _ _ => Raise EIO) (fun _ _ => Raise EIO)
    (fun _ _ _ => Raise EIO) (fun _ _ => Raise EIO).

(** A server that answers 500 to every request. *)
Definition failing : Net :=
  mkNet unit
    (fun _ => Ret (mkResponse false 500 "Internal Server Error"
                     (Ret tt) (Ret [])))
    percent_encode (fun _ => []).

(** A server with two databases, each holding its content. *)
Inductive Doc : Type :=
| DocNames (names : list string)
| DocEntries (entries : list DirEntry).

Definition two_dbs : Net :=
  mkNet Doc
    (fun r =>
       if String.eqb (req_url r) "/estorage" then
         Ret (mkResponse true 200 "OK" (Ret (DocNames ["g1"; "g2"])) (Ret []))
       else if String.eqb (req_url r) "/estorage/g1/db.sqlite" then
         Ret (mkResponse true 200 "OK" (Raise not_json) (Ret a_png))
       else if String.eqb (req_url r) "/estorage/g2/db.sqlite" then
         Ret (mkResponse true 200 "OK" (Raise not_json) (Ret b_png))
       else
         Ret (mkResponse false 404 "Not Found" (Raise not_json) (Ret [])))
    percent_encode
    (fun d => match d with DocEntries es => es | DocNames _ => [] end).

Definition two_dbs_names (d : Doc) : list string :=
  match d with
  | DocNames ns => ns
  | DocEntries _ => []
  end.

(** A server whose list of databases still names [g3], which it no longer
    holds. *)
Definition stale_list : Net :=
  mkNet Doc
    (fun r =>
       if String.eqb (req_url r) "/estorage" then
         Ret (mkResponse true 200 "OK" (Ret (DocNames ["g1"; "g3"; "g2"]))
                (Ret []))
       else if String.eqb (req_url r) "/estorage/g1/db.sqlite" then
         Ret (mkResponse true 200 "OK" (Raise not_json) (Ret a_png))
       else if String.eqb (req_url r) "/estorage/g2/db.sqlite" then
         Ret (mkResponse true 200 "OK" (Raise not_json) (Ret b_png))
       else
         Ret (mkResponse false 404 "Not Found" (Raise not_json) (Ret [])))
    percent_encode
    (fun d => match d with DocEntries es => es | DocNames _ => [] end).
(** ** Further vocabulary: the kill-switch *)

Definition is_history_call (a : Action) : bool :=
  match a with
  | CallPushState _ | CallReplaceState _ | CallBack | CallForward
  | CallGo _ => true
  | _ => false
  end.

(** [disableSpaRouting(); restoreSpaRouting();] *)
Definition cycle (href_ok : string -> bool) (stack steps : nat)
  : Js.M GuardEvent Window unit :=
  disableSpaRouting href_ok stack ;; restoreSpaRouting href_ok stack steps.
(** * Properties *)

(** ** Upload naming and order *)

Lemma length_append s t :
  String.length (s ++ t) = String.length s + String.length t.
Proof. induction s as [|c s IH]; simpl; [reflexivity | now rewrite IH]. Qed.

Lemma is_dot_zip_length s : is_dot_zip s = true -> String.length s = 4.
Proof.
  destruct s as [|c0 [|c1 [|c2 [|c3 [|c4 s]]]]]; simpl; try discriminate.
  reflexivity.
Qed.

Lemma replace_zip_suffix_app base ext :
  is_dot_zip ext = true -> replace_zip_suffix (base ++ ext) = base.
Proof.
  intros Hext. induction base as [|c base IH].
  - simpl. destruct ext as [|c ext]; [reflexivity|].
    cbn [replace_zip_suffix]. now rewrite Hext.
  - change (String c base ++ ext) with (String c (base ++ ext)).
    cbn [replace_zip_suffix]. rewrite IH.
    destruct (is_dot_zip (String c (base ++ ext))) eqn:E; [|reflexivity].
    apply is_dot_zip_length in E. apply is_dot_zip_length in Hext.
    simpl in E. rewrite length_append in E. lia.
Qed.

Lemma replace_zip_suffix_cases name :
  replace_zip_suffix name = name \/
  exists ext, is_dot_zip ext = true /\ name = replace_zip_suffix name ++ ext.
Proof.
  induction name as [|c name IH].
  - left. reflexivity.
  - cbn [replace_zip_suffix].
    destruct (is_dot_zip (String c name)) eqn:E.
    + right. exists (String c name). split; [exact E | reflexivity].
    + destruct IH as [IH | (ext & Hext & IH)].
      * left. now rewrite IH.
      * right. exists ext. split; [exact Hext|]. simpl. now rewrite <- IH.
Qed.

Section UploadProofs.
Context {FS : Type} (net : Net).

Lemma uploadDBZip_events dbName zip (fs : FS) :
  exists o,
    uploadDBZip net dbName zip fs = o /\
    final o = Some fs /\
    events o =
      [EvFetch (mkRequest POST ("/estorage/" ++ encodeURIComponent net dbName)
                  None (Some (mkPart "file" zip (file_name zip))))].
Proof.
  eexists; split; [reflexivity|].
  unfold uploadDBZip, do_fetch, ensureOk, bind, emit, lift. simpl.
  destruct (fetch net _) as [res|e]; simpl; [|split; reflexivity].
  destruct (res_ok res); simpl; [|split; reflexivity].
  destruct (res_json res); simpl; split; reflexivity.
Qed.

Lemma uploadDBZip_outcome file (fs : FS) :
  uploadDBZip net (replace_zip_suffix (file_name file)) file fs =
    match uploaded net file with
    | Ret j => Done j fs [EvFetch (upload_request net file)]
    | Raise e => Threw e fs [EvFetch (upload_request net file)]
    end.
Proof.
  unfold uploadDBZip, uploaded, checked, upload_request, do_fetch, ensureOk,
    backend, bind, emit, lift, ret, throw. simpl.
  destruct (fetch net _) as [res|e]; simpl; [|reflexivity].
  destruct (res_ok res); simpl; [|reflexivity].
  destruct (res_json res); reflexivity.
Qed.

Lemma uploadRepos_all files (fs : FS) :
  forallb (fun f => succeeds (uploaded net f)) files = true ->
  uploadRepos net files fs
  = Done tt fs (map (fun f => EvFetch (upload_request net f)) files).
Proof.
  induction files as [|file files IH]; intros H; [reflexivity|].
  simpl in H. apply andb_prop in H as [Hf H].
  unfold uploadRepos in *. cbn [for_of map].
  unfold bind at 1. unfold bind at 1. rewrite uploadDBZip_outcome.
  destruct (uploaded net file) as [j|e]; [|discriminate].
  cbn [ret after]. rewrite (IH H). reflexivity.
Qed.

Lemma uploadRepos_first_failure before file rest e (fs : FS) :
  forallb (fun f => succeeds (uploaded net f)) before = true ->
  uploaded net file = Raise e ->
  uploadRepos net (before ++ file :: rest) fs
  = Threw e fs
      (map (fun f => EvFetch (upload_request net f)) (before ++ [file])).
Proof.
  intros Hb Hf. induction before as [|b before IH].
  - unfold uploadRepos. cbn [app for_of map].
    unfold bind at 1. unfold bind at 1.
    rewrite uploadDBZip_outcome, Hf. reflexivity.
  - simpl in Hb. apply andb_prop in Hb as [Hb0 Hb].
    unfold uploadRepos in *. cbn [app for_of map].
    unfold bind at 1. unfold bind at 1. rewrite uploadDBZip_outcome.
    destruct (uploaded net b) as [j|e0]; [|discriminate].
    cbn [ret after]. rewrite (IH Hb). reflexivity.
Qed.

End UploadProofs.

(** C8.  [uploadRepos] names each upload by the file name with one trailing
    [.zip] removed, whatever the case of its letters, and nothing else
    removed.  It sends the uploads one after the other in input order: when
    every upload succeeds it has sent one request for every input file, in
    that order, and returns; when an upload fails it throws the error of
    that upload, having sent the requests of the files up to that one and
    none for the files after it. *)
Theorem uploadRepos_naming_and_order :
  (forall base (z i p : bool),
      replace_zip_suffix
        (base ++ String "."
           (String (if z then "z" else "Z")
              (String (if i then "i" else "I")
                 (String (if p then "p" else "P") ""))))%char = base) /\
  (forall name,
      replace_zip_suffix name = name \/
      exists ext, is_dot_zip ext = true /\
                  name = replace_zip_suffix name ++ ext) /\
  replace_zip_suffix "graph1.zip" = "graph1" /\
  replace_zip_suffix "graph2.ZIP" = "graph2" /\
  replace_zip_suffix "graph3.zip.zip" = "graph3.zip" /\
  (forall (FS : Type) (net : Net) (files : list JsFile) (fs : FS),
      forallb (fun f => succeeds (uploaded net f)) files = true ->
      uploadRepos net files fs
      = Done tt fs (map (fun f => EvFetch (upload_request net f)) files)) /\
  (forall (FS : Type) (net : Net) (before : list JsFile) (file : JsFile)
          (rest : list JsFile) (e : Exn) (fs : FS),
      forallb (fun f => succeeds (uploaded net f)) before = true ->
      uploaded net file = Raise e ->
      uploadRepos net (before ++ file :: rest) fs
      = Threw e fs
          (map (fun f => EvFetch (upload_request net f)) (before ++ [file]))).
Proof.
  split; [|split; [|split; [|split; [|split; [|split]]]]].
  - intros base z i p. apply replace_zip_suffix_app.
    destruct z, i, p; reflexivity.
  - exact replace_zip_suffix_cases.
  - reflexivity.
  - reflexivity.
  - reflexivity.
  - intros FS net files fs. apply uploadRepos_all.
  - intros FS net before file rest e fs. apply uploadRepos_first_failure.
Qed.

Lemma uploadRepos_naming_and_order_witness :
  uploadRepos accepting
    [mkFile "graph1.zip" [x50; x4b]; mkFile "graph2.ZIP" [x50; x4b]] tt
  = Done tt tt
      [ EvFetch (mkRequest POST "/estorage/graph1" None
                   (Some (mkPart "file" (mkFile "graph1.zip" [x50; x4b])
                            "graph1.zip")));
        EvFetch (mkRequest POST "/estorage/graph2" None
                   (Some (mkPart "file" (mkFile "graph2.ZIP" [x50; x4b])
                            "graph2.ZIP"))) ] /\
  uploadRepos graph1_only
    [mkFile "graph1.zip" [x50; x4b]; mkFile "graph2.ZIP" [x50; x4b];
     mkFile "graph3.zip" [x50; x4b]] tt
  = Threw (JsError "uploadDBZip failed: 404 Not Found") tt
      [ EvFetch (mkRequest POST "/estorage/graph1" None
                   (Some (mkPart "file" (mkFile "graph1.zip" [x50; x4b])
                            "graph1.zip")));
        EvFetch (mkRequest POST "/estorage/graph2" None
                   (Some (mkPart "file" (mkFile "graph2.ZIP" [x50; x4b])
                            "graph2.ZIP"))) ].
Proof.
  destruct uploadRepos_naming_and_order as (_ & _ & _ & _ & _ & Hall & Hfail).
  split.
  - exact (Hall unit accepting
             [mkFile "graph1.zip" [x50; x4b]; mkFile "graph2.ZIP" [x50; x4b]]
             tt eq_refl).
  - exact (Hfail unit graph1_only [mkFile "graph1.zip" [x50; x4b]]
             (mkFile "graph2.ZIP" [x50; x4b])
             [mkFile "graph3.zip" [x50; x4b]]
             (JsError "uploadDBZip failed: 404 Not Found") tt
             eq_refl eq_refl).
Defined.

Example uploadRepos_two_graphs (fs : MemFS.node) :
  uploadRepos accepting
    [mkFile "graph1.zip" [x50; x4b]; mkFile "graph2.ZIP" [x50; x4b]] fs
  = Done tt fs
      [ EvFetch (mkRequest POST "/estorage/graph1" None
                   (Some (mkPart "file" (mkFile "graph1.zip" [x50; x4b])
                            "graph1.zip")));
        EvFetch (mkRequest POST "/estorage/graph2" None
                   (Some (mkPart "file" (mkFile "graph2.ZIP" [x50; x4b])
                            "graph2.ZIP"))) ].
Proof. reflexivity. Qed.

(** ** The routing kill-switch *)

Section GuardProofs.
Variable href_ok : string -> bool.

Lemma hardNavigate_run url w :
  hardNavigate href_ok url w = Done tt w [navigation href_ok url].
Proof.
  unfold hardNavigate, navigation, try_catch, bind, set_href, reload, emit,
    lift, ret, throw.
  destruct url as [| |b|s|str]; simpl; try reflexivity.
  - destruct b; simpl; destruct (href_ok _); reflexivity.
  - destruct s as [|c s]; simpl; [reflexivity|].
    destruct (href_ok _); reflexivity.
  - destruct str as [[|c s]|e]; simpl; try reflexivity.
    destruct (href_ok _); reflexivity.
Qed.

End GuardProofs.

(** C10.  [hardNavigate("")] reloads the page and does not set the location:
    the empty string takes the branch of an absent target. *)
Theorem hardNavigate_empty_string_reloads :
  forall (href_ok : string -> bool) (w : Window),
    hardNavigate href_ok (VString "") w = Done tt w [EvReload] /\
    hardNavigate href_ok (VString "") w = hardNavigate href_ok VUndefined w /\
    hardNavigate href_ok (VString "") w = hardNavigate href_ok VNull w.
Proof.
  intros href_ok w. rewrite !hardNavigate_run. repeat split.
Qed.

(** C7, as amended.  [hardNavigate] never throws and changes no binding.  It
    sets the page location to [String(url)] when [url] is neither [undefined]
    nor [null], the coercion returns a non-empty string and the location
    accepts it; in every other case it reloads the page. *)
Theorem hardNavigate_contract :
  forall (href_ok : string -> bool) (url : JsVal) (w : Window),
    hardNavigate href_ok url w =
      Done tt w
        [ if not_nullish url then
            match js_String url with
            | Ret (String c rest) =>
                if href_ok (String c rest) then EvSetHref (String c rest)
                else EvReload
            | Ret EmptyString => EvReload
            | Raise _ => EvReload
            end
          else EvReload ].
Proof.
  intros href_ok url w. apply hardNavigate_run.
Qed.

(** C7 as stated fails: a target that is present is not always what the page
    location is set to. *)
Lemma hardNavigate_present_target_not_always_set :
  ~ (forall (href_ok : string -> bool) (url : JsVal) (w : Window) (s : string),
        not_nullish url = true ->
        js_String url = Ret s ->
        href_ok s = true ->
        hardNavigate href_ok url w = Done tt w [EvSetHref s]).
Proof.
  intros H.
  specialize (H (fun _ => true) (VString "")
                (mkWindow (mkHistory (Builtin 0) (Builtin 1) (Builtin 2)
                             (Builtin 3) (Builtin 4))
                   (Builtin 5) (Builtin 6) (Builtin 7) (Builtin 8) None)
                "" eq_refl eq_refl eq_refl).
  discriminate H.
Qed.

Section EpochProofs.
Variable href_ok : string -> bool.

Lemma disableSpaRouting_enabled stack w :
  guard_enabled w = true -> disableSpaRouting href_ok stack w = Done tt w [].
Proof.
  unfold guard_enabled, disableSpaRouting, bind, get. simpl.
  intros ->. reflexivity.
Qed.


Lemma builtin_operations_inv w :
  builtin_operations w = true ->
  exists ps rs bk fw g a r,
    w = mkWindow (mkHistory (Builtin ps) (Builtin rs) (Builtin bk)
                    (Builtin fw) (Builtin g))
          (Builtin a) (Builtin r) (location_assign w) (location_replace w)
          (routingKillSwitch w).
Proof.
  destruct w as [[ps rs bk fw g] a r la lr ks]. unfold builtin_operations.
  cbn [history addEventListener removeEventListener pushState replaceState
       back forward go location_assign location_replace routingKillSwitch].
  intros H.
  repeat (apply andb_prop in H; destruct H as [H ?]).
  destruct ps; try discriminate. destruct rs; try discriminate.
  destruct bk; try discriminate. destruct fw; try discriminate.
  destruct g; try discriminate. destruct a; try discriminate.
  destruct r; try discriminate.
  repeat eexists.
Qed.

Lemma disableSpaRouting_opens stack w0 :
  1 <= stack ->
  builtin_operations w0 = true ->
  guard_enabled w0 = false ->
  disableSpaRouting href_ok stack w0
  = Done tt (in_epoch w0 (queue w0)) (install_handlers w0).
Proof.
  intros Hs Hb Hoff.
  destruct (builtin_operations_inv _ Hb)
    as (ps & rs & bk & fw & g & a & r & Hw).
  destruct stack as [|n]; [lia|].
  unfold guard_enabled in Hoff.
  destruct w0 as [h0 a0 r0 la lr ks]. cbn in Hw. injection Hw as -> -> ->.
  destruct ks as [[en sh sw ls be kh]|]; cbn in Hoff; subst.
  - destruct ls as [l|]; destruct kh as [[[[]|] [[]|]]|]; reflexivity.
  - reflexivity.
Qed.

Lemma skipn_nth_error {A} (l : list A) : forall i x,
  nth_error l i = Some x -> skipn i l = x :: skipn (S i) l.
Proof.
  induction l as [|y l IH]; intros [|i] x H; try discriminate.
  - injection H as ->. reflexivity.
  - cbn [nth_error] in H. cbn [skipn]. rewrite (IH _ _ H). reflexivity.
Qed.

Lemma skipn_nth_error_none {A} (l : list A) i :
  nth_error l i = None -> skipn i l = [].
Proof.
  intros H. apply nth_error_None in H. now apply skipn_all2.
Qed.

(** The window in the middle of [restoreSpaRouting]: the bindings are back,
    the guard is still on. *)
Lemma replay_run stack steps w0 q : forall i seen,
  1 <= stack ->
  is_builtin (addEventListener w0) = true ->
  length (queue_items q) - i < steps ->
  replay href_ok stack steps (queue_id q) seen i
    (mkWindow (history w0) (addEventListener w0) (removeEventListener w0)
       (location_assign w0) (location_replace w0)
       (Some (saved_in_epoch w0 true q)))
  = Done tt
      (mkWindow (history w0) (addEventListener w0) (removeEventListener w0)
         (location_assign w0) (location_replace w0)
         (Some (saved_in_epoch w0 true q)))
      (map (EvListenerCall (addEventListener w0)) (skipn i (queue_items q))).
Proof.
  intros i seen Hs Hb. revert i seen. unfold saved_in_epoch.
  destruct (addEventListener w0) as [a| | | | | | | |] eqn:Ha;
    try discriminate.
  destruct stack as [|n]; [lia|].
  induction steps as [|steps IH]; intros i seen Hlen.
  - lia.
  - cbn [replay]. unfold the_saved, bind at 1.
    cbn [get after routingKillSwitch defined ret app listeners queue_id].
    unfold bind at 1.
    cbn [get after routingKillSwitch defined ret app listeners queue_id].
    rewrite Nat.eqb_refl.
    destruct (nth_error (queue_items q) i) as [r|] eqn:Hi.
    + rewrite (skipn_nth_error _ _ _ Hi). cbn [map].
      cbn [saved_window]. unfold bind at 1. cbn [defined ret after app].
      cbn [saved_addEventListener]. unfold bind at 1.
      cbn [invoke emit after app].
      assert (Hlt : i < length (queue_items q))
        by (apply nth_error_Some; rewrite Hi; discriminate).
      rewrite IH by lia. reflexivity.
    + rewrite (skipn_nth_error_none _ _ Hi). reflexivity.
Qed.

Lemma restoreSpaRouting_closes stack steps w0 q :
  1 <= stack ->
  builtin_operations w0 = true ->
  length (queue_items q) < steps ->
  restoreSpaRouting href_ok stack steps (in_epoch w0 q)
  = Done tt (after_epoch w0 q)
      (remove_handlers w0
       ++ map (EvListenerCall (addEventListener w0)) (queue_items q)).
Proof.
  intros Hs Hb Hlen.
  pose proof (replay_run stack steps w0 q 0 (queue_items q) Hs) as R.
  destruct (builtin_operations_inv _ Hb)
    as (ps & rs & bk & fw & g & a & r & Hw).
  destruct w0 as [h0 a0 r0 la lr ks]. cbn in Hw. injection Hw as -> -> ->.
  specialize (R eq_refl).
  destruct stack as [|n]; [lia|].
  destruct q as [id [|x items]]; [reflexivity|].
  cbn in Hlen. specialize (R ltac:(cbn; lia)).
  unfold restoreSpaRouting, in_epoch, after_epoch, emptied, saved_in_epoch,
    the_saved, update_saved, onHashAttempt_of, onPopState_of,
    new_onHashAttempt, new_onPopState in *.
  repeat (unfold bind at 1; cbn -[replay]).
  match type of R with
  | ?lhs = _ =>
      match goal with
      | |- context [replay ?a ?b ?c ?d ?e ?f ?w] =>
          change (replay a b c d e f w) with lhs
      end
  end.
  rewrite R. cbn. rewrite !app_nil_r. reflexivity.
Qed.

Lemma perform_in_epoch stack steps w0 q a :
  2 <= stack ->
  builtin_operations w0 = true ->
  is_restore a = false ->
  perform href_ok stack steps a (in_epoch w0 q) =
    Done tt (in_epoch w0 (queue_after a q)) (effects_in_epoch href_ok w0 a).
Proof.
  intros Hs Hb Ha.
  destruct (builtin_operations_inv _ Hb)
    as (ps & rs & bk & fw & g & ad & rm & Hw).
  destruct w0 as [h0 a0 r0 la lr ks]. cbn in Hw. injection Hw as -> -> ->.
  destruct stack as [|[|n]]; try lia.
  destruct a as [| |r|r|url|url| | |delta]; try discriminate;
    try reflexivity.
  - unfold perform, queue_after, effects_in_epoch, guarded, the_saved, bind.
    cbn -[set_has].
    unfold ks_addEventListener, the_saved, bind. cbn -[set_has].
    destruct (set_has blocked_set (reg_type r)); [|reflexivity].
    destruct q, r; reflexivity.
  - unfold perform, queue_after, effects_in_epoch, guarded, the_saved, bind.
    cbn -[set_has].
    unfold ks_removeEventListener, the_saved, bind. cbn -[set_has].
    destruct (set_has blocked_set (reg_type r)); [|reflexivity].
    destruct q, r; reflexivity.
  - unfold perform. unfold bind at 1. simpl. rewrite hardNavigate_run.
    reflexivity.
  - unfold perform. unfold bind at 1. simpl. rewrite hardNavigate_run.
    reflexivity.
Qed.

Lemma perform_all_in_epoch stack steps w0 acts : forall q,
  2 <= stack ->
  builtin_operations w0 = true ->
  forallb (fun a => negb (is_restore a)) acts = true ->
  perform_all href_ok stack steps acts (in_epoch w0 q) =
    Done tt (in_epoch w0 (queue_after_all acts q))
      (flat_map (effects_in_epoch href_ok w0) acts).
Proof.
  induction acts as [|a acts IH]; intros q Hs Hb H; [reflexivity|].
  simpl in H. apply andb_prop in H as [Ha H].
  apply negb_true_iff in Ha.
  unfold perform_all, queue_after_all in *. cbn [for_of fold_left flat_map].
  unfold bind. rewrite (perform_in_epoch _ _ _ _ _ Hs Hb Ha), (IH _ Hs Hb H).
  reflexivity.
Qed.

Lemma enter_epoch stack steps w acts :
  2 <= stack ->
  builtin_operations w = true ->
  guard_enabled w = false ->
  forallb (fun a => negb (is_restore a)) acts = true ->
  perform_all href_ok stack steps (CallDisableSpaRouting :: acts) w
  = Done tt (in_epoch w (queue_after_all acts (queue w)))
      (install_handlers w ++ flat_map (effects_in_epoch href_ok w) acts).
Proof.
  intros Hs Hb Hoff Hacts. unfold perform_all. cbn [for_of]. unfold bind.
  change (perform href_ok stack steps CallDisableSpaRouting w)
    with (disableSpaRouting href_ok stack w).
  rewrite (disableSpaRouting_opens stack w) by (assumption || lia).
  fold (perform_all href_ok stack steps acts (in_epoch w (queue w))).
  rewrite (perform_all_in_epoch stack steps w acts _ Hs Hb Hacts).
  reflexivity.
Qed.

End EpochProofs.

Lemma queue_after_length a q :
  length (queue_items (queue_after a q)) <= S (length (queue_items q)).
Proof.
  destruct a; cbn [queue_after]; try lia.
  - destruct (guarded r); cbn [queue_items]; [|lia].
    rewrite length_app. simpl. lia.
  - destruct (guarded r); cbn [queue_items]; [|lia].
    pose proof (filter_length_le
                  (fun x => negb (same_registration r x)) (queue_items q)).
    lia.
Qed.

Lemma queue_after_all_length acts : forall q,
  length (queue_items (queue_after_all acts q))
  <= length (queue_items q) + length acts.
Proof.
  induction acts as [|a acts IH]; intros q; [simpl; lia|].
  unfold queue_after_all in *. cbn [fold_left length].
  pose proof (IH (queue_after a q)). pose proof (queue_after_length a q).
  lia.
Qed.

Lemma emptied_items q : queue_items (emptied q) = [].
Proof.
  unfold emptied. destruct (queue_items q) eqn:E; [exact E|reflexivity].
Qed.







(** ** The asset mirror *)

Section MirrorRuns.
Context {FS : Type} (pfs : Pfs FS) (net : Net).

Lemma listDBDir_run db path (fs : FS) :
  listDBDir net db path fs =
    match listed net db path with
    | Ret es => Done es fs [EvFetch (listing_request net db path)]
    | Raise e => Threw e fs [EvFetch (listing_request net db path)]
    end.
Proof.
  unfold listDBDir, listed, checked, do_fetch, ensureOk, listing_request,
    backend, bind, emit, lift, ret, throw. simpl.
  destruct (fetch net _) as [res|e]; simpl; [|reflexivity].
  destruct (res_ok res); simpl; [|reflexivity].
  destruct (res_json res); reflexivity.
Qed.

Lemma fetchDBFileBytes_run db path (fs : FS) :
  fetchDBFileBytes net db path fs =
    match fetched net db path with
    | Ret d => Done d fs [EvFetch (bytes_request net db path)]
    | Raise e => Threw e fs [EvFetch (bytes_request net db path)]
    end.
Proof.
  unfold fetchDBFileBytes, fetched, checked, do_fetch, ensureOk,
    bytes_request, backend, bind, emit, lift, ret, throw. simpl.
  destruct (fetch net _) as [res|e]; simpl; [|reflexivity].
  destruct (res_ok res); simpl; [|reflexivity].
  destruct (res_arrayBuffer res); reflexivity.
Qed.

Lemma ensureDbDir_run db fs :
  ensureDbDir pfs db fs =
    if present_as_dir pfs fs (dbPath db) then Done tt fs [EvStat (dbPath db)]
    else match pfs_mkdir pfs fs (dbPath db) with
         | Ret fs' => Done tt fs' [EvStat (dbPath db); EvMkdir (dbPath db)]
         | Raise _ =>
             Done tt fs [EvStat (dbPath db); EvMkdir (dbPath db);
                         mkdir_failed db]
         end.
Proof.
  unfold ensureDbDir, present_as_dir, stat, mkdir, console_error,
    mkdir_failed, try_catch, bind, emit, get, put, lift, ret, throw.
  cbn -[String.eqb dbPath].
  destruct (pfs_stat pfs fs (dbPath db)) as [st|e]; cbn -[String.eqb dbPath].
  - destruct (String.eqb (st_type st) "dir"); cbn -[String.eqb dbPath];
      [reflexivity|].
    destruct (pfs_mkdir pfs fs (dbPath db)); reflexivity.
  - destruct (pfs_mkdir pfs fs (dbPath db)); reflexivity.
Qed.

Lemma syncAsset_run db e fs :
  let name := entry_name e in
  let p := assetPath db name in
  syncAsset pfs net db e fs =
    if present_as_file pfs fs p then Done tt fs [EvStat p]
    else match fetched net db ("assets/" ++ name) with
         | Ret data =>
             match pfs_writeFile pfs fs p data with
             | Ret fs' =>
                 Done tt fs'
                   [EvStat p; EvFetch (asset_request net db name);
                    EvWriteFile p data;
                    EvLog ("Wrote asset file at " ++ db ++ "/assets/" ++ name)]
             | Raise _ =>
                 Done tt fs
                   [EvStat p; EvFetch (asset_request net db name);
                    EvWriteFile p data; write_failed db name]
             end
         | Raise _ =>
             Done tt fs
               [EvStat p; EvFetch (asset_request net db name);
                write_failed db name]
         end.
Proof.
  intros name p. unfold syncAsset. fold name. fold p.
  unfold present_as_file, try_catch at 1, bind at 1, stat.
  unfold bind at 1, emit. cbv beta iota. unfold bind at 1, get.
  cbv beta iota. unfold after at 2.
  destruct (pfs_stat pfs fs p) as [st|ex]; cbn [lift ret throw after app].
  - destruct (String.eqb (st_type st) "file"); cbn [negb ret throw after app];
      [reflexivity|].
    unfold try_catch, bind at 1. rewrite fetchDBFileBytes_run.
    fold (asset_request net db name).
    destruct (fetched net db ("assets/" ++ name)) as [data|ex];
      [|reflexivity].
    cbv beta iota. unfold writeFile, console_log, bind, emit, get, put, lift.
    destruct (pfs_writeFile pfs fs p data); reflexivity.
  - unfold try_catch, bind at 1. rewrite fetchDBFileBytes_run.
    fold (asset_request net db name).
    destruct (fetched net db ("assets/" ++ name)) as [data|ex'];
      [|reflexivity].
    cbv beta iota. unfold writeFile, console_log, bind, emit, get, put, lift.
    destruct (pfs_writeFile pfs fs p data); reflexivity.
Qed.

End MirrorRuns.

Section Loops.
Context {E St : Type}.

Lemma after_after {A} (t1 t2 : list E) (o : outcome E St A) :
  after t1 (after t2 o) = after (t1 ++ t2) o.
Proof. destruct o; simpl; now rewrite app_assoc. Qed.

Lemma after_nil {A} (o : outcome E St A) : after [] o = o.
Proof. destruct o; reflexivity. Qed.

Lemma events_after {A} (t : list E) (o : outcome E St A) :
  events (after t o) = (t ++ events o)%list.
Proof. destruct o; reflexivity. Qed.

Lemma for_of_app {A} (body : A -> Js.M E St unit) l1 l2 s s1 t1 :
  for_of l1 body s = Done tt s1 t1 ->
  for_of (l1 ++ l2) body s = after t1 (for_of l2 body s1).
Proof.
  revert s t1. induction l1 as [|x l1 IH]; intros s t1 H.
  - simpl in H. injection H as <- <-. simpl. now rewrite after_nil.
  - cbn [app for_of] in *. unfold bind in *.
    destruct (body x s) as [[] s' t'|e s' t'|t']; try discriminate.
    destruct (for_of l1 body s') as [[] s'' t''|e s'' t''|t''] eqn:E1;
      simpl in H; try discriminate.
    injection H as <- <-. rewrite (IH _ _ E1), after_after. reflexivity.
Qed.

(** A loop whose body always completes, completes. *)
Lemma for_of_done {A} (body : A -> Js.M E St unit) l :
  (forall x s, exists s' t, body x s = Done tt s' t) ->
  forall s, exists s' t, for_of l body s = Done tt s' t.
Proof.
  intros Hbody. induction l as [|x l IH]; intros s.
  - exists s, []. reflexivity.
  - destruct (Hbody x s) as (s1 & t1 & H1).
    destruct (IH s1) as (s2 & t2 & H2).
    exists s2, (t1 ++ t2)%list. cbn [for_of]. unfold bind.
    rewrite H1, H2. reflexivity.
Qed.

End Loops.

Section MirrorLoop.
Context {FS : Type} (pfs : Pfs FS) (net : Net).

Lemma syncAsset_done db e fs :
  exists fs' tr, syncAsset pfs net db e fs = Done tt fs' tr.
Proof.
  rewrite syncAsset_run.
  destruct (present_as_file _ _ _); [eauto|].
  destruct (fetched _ _ _) as [data|ex]; [|eauto].
  destruct (pfs_writeFile _ _ _ _); eauto.
Qed.

Lemma syncAsset_failure db e fs :
  present_as_file pfs fs (assetPath db (entry_name e)) = false ->
  fetch_or_write_fails pfs net db (entry_name e) fs = true ->
  exists tr,
    syncAsset pfs net db e fs
    = Done tt fs (tr ++ [write_failed db (entry_name e)])%list /\
    hd_error tr = Some (EvStat (assetPath db (entry_name e))).
Proof.
  intros Habsent Hfail. rewrite syncAsset_run, Habsent.
  unfold fetch_or_write_fails in Hfail.
  destruct (fetched _ _ _) as [data|ex].
  - destruct (pfs_writeFile _ _ _ _); [discriminate|].
    exists [EvStat (assetPath db (entry_name e));
            EvFetch (asset_request net db (entry_name e));
            EvWriteFile (assetPath db (entry_name e)) data].
    split; reflexivity.
  - exists [EvStat (assetPath db (entry_name e));
            EvFetch (asset_request net db (entry_name e))].
    split; reflexivity.
Qed.

End MirrorLoop.

(** C4.  In the loop over the remote entries of a database, an entry whose
    fetch or write fails ends its own iteration normally: the failure is
    logged with [console.error], the filesystem is left as it was, and the
    entries after it are processed exactly as if the failed entry had not
    been listed. *)
Theorem asset_failure_isolated :
  forall (FS : Type) (pfs : Pfs FS) (net : Net) (db : string)
         (before : list DirEntry) (e : DirEntry) (rest : list DirEntry)
         (fs fs1 : FS) (tr1 : list Event),
    for_of before (syncAsset pfs net db) fs = Done tt fs1 tr1 ->
    present_as_file pfs fs1 (assetPath db (entry_name e)) = false ->
    fetch_or_write_fails pfs net db (entry_name e) fs1 = true ->
    exists tr_e fs2 tr2,
      syncAsset pfs net db e fs1
        = Done tt fs1 (tr_e ++ [write_failed db (entry_name e)])%list /\
      for_of rest (syncAsset pfs net db) fs1 = Done tt fs2 tr2 /\
      for_of (before ++ e :: rest) (syncAsset pfs net db) fs
        = Done tt fs2
            (tr1 ++ (tr_e ++ [write_failed db (entry_name e)]) ++ tr2)%list /\
      for_of (before ++ rest) (syncAsset pfs net db) fs
        = Done tt fs2 (tr1 ++ tr2)%list.
Proof.
  intros FS pfs net db before e rest fs fs1 tr1 Hbefore Habsent Hfail.
  destruct (syncAsset_failure pfs net db e fs1 Habsent Hfail)
    as (tr_e & He & _).
  destruct (for_of_done (syncAsset pfs net db) rest
              (syncAsset_done pfs net db) fs1) as (fs2 & tr2 & Hrest).
  exists tr_e, fs2, tr2. repeat apply conj.
  - exact He.
  - exact Hrest.
  - rewrite (for_of_app _ _ _ _ _ _ Hbefore). cbn [for_of]. unfold bind.
    rewrite He, Hrest. reflexivity.
  - rewrite (for_of_app _ _ _ _ _ _ Hbefore), Hrest. reflexivity.
Qed.

Lemma asset_failure_isolated_witness :
  exists tr_e fs2 tr2,
    syncAsset MemFS.pfs (server second_only_site) "mydb" (EFile "a.png" "abc")
      assets_dir_ready
    = Done tt assets_dir_ready (tr_e ++ [write_failed "mydb" "a.png"])%list /\
    for_of [EFile "b.png" "def"]
      (syncAsset MemFS.pfs (server second_only_site) "mydb") assets_dir_ready
    = Done tt fs2 tr2 /\
    for_of ([] ++ EFile "a.png" "abc" :: [EFile "b.png" "def"])
      (syncAsset MemFS.pfs (server second_only_site) "mydb") assets_dir_ready
    = Done tt fs2
        ([] ++ (tr_e ++ [write_failed "mydb" "a.png"]) ++ tr2)%list /\
    for_of ([] ++ [EFile "b.png" "def"])
      (syncAsset MemFS.pfs (server second_only_site) "mydb") assets_dir_ready
    = Done tt fs2 ([] ++ tr2)%list.
Proof.
  exact (asset_failure_isolated MemFS.node MemFS.pfs (server second_only_site)
           "mydb" [] (EFile "a.png" "abc") [EFile "b.png" "def"]
           assets_dir_ready assets_dir_ready [] eq_refl eq_refl eq_refl).
Defined.

(** In that run the sibling [b.png] is mirrored although [a.png] failed. *)
Example sibling_written_after_failure :
  exists tr,
    for_of [EFile "a.png" "abc"; EFile "b.png" "def"]
      (syncAsset MemFS.pfs (server second_only_site) "mydb") assets_dir_ready
    = Done tt
        (MemFS.Dir
           [("mydb",
             MemFS.Dir [("assets", MemFS.Dir [("b.png", MemFS.File b_png)])])])
        tr /\
    In (write_failed "mydb" "a.png") tr.
Proof.
  eexists. split; [reflexivity|]. vm_compute. do 2 right. left. reflexivity.
Qed.

Section Observers.
Context {E St : Type} (P : E -> Prop).

Lemma observes_bind {A B} (m : Js.M E St A) (k : A -> Js.M E St B) s :
  observes P s (m s) ->
  (forall a, observes P s (k a s)) ->
  observes P s (bind m k s).
Proof.
  unfold bind. intros Hm Hk.
  destruct (m s) as [a s1 t1|e s1 t1|t1]; simpl in Hm; auto.
  destruct Hm as [-> Ht1]. specialize (Hk a).
  destruct (k a s) as [b s2 t2|e s2 t2|t2]; simpl in *.
  - destruct Hk as [-> Ht2]. split; [reflexivity|]. now apply Forall_app.
  - destruct Hk as [-> Ht2]. split; [reflexivity|]. now apply Forall_app.
  - now apply Forall_app.
Qed.

Lemma observes_for_range (body : nat -> Js.M E St unit) s count :
  (forall i, observes P s (body i s)) ->
  forall start, observes P s (for_range count start body s).
Proof.
  intros Hbody. induction count as [|count IH]; intros start.
  - simpl. auto.
  - cbn [for_range]. apply observes_bind; auto.
Qed.

End Observers.

Section PrintTreeReads.
Context {FS : Type} (pfs : Pfs FS).

Lemma stat_observes path (fs : FS) : observes read_or_log fs (stat pfs path fs).
Proof.
  unfold stat, bind, emit, get, lift. simpl.
  destruct (pfs_stat pfs fs path); simpl; repeat constructor.
Qed.

Lemma readdir_observes path (fs : FS) :
  observes read_or_log fs (readdir pfs path fs).
Proof.
  unfold readdir, bind, emit, get, lift. simpl.
  destruct (pfs_readdir pfs fs path); simpl; repeat constructor.
Qed.

Lemma printTree_observes fuel : forall dir prefix (fs : FS),
  observes read_or_log fs (printTree pfs fuel dir prefix fs).
Proof.
  induction fuel as [|fuel IH]; intros dir prefix fs.
  - simpl. constructor.
  - cbn [printTree]. apply observes_bind; [apply readdir_observes|].
    intros entries. apply observes_for_range. intros i. unfold printEntry.
    apply observes_bind; [apply stat_observes|]. intros st.
    apply observes_bind; [simpl; repeat constructor|]. intros _.
    destruct (String.eqb (st_type st) "dir"); [apply IH|].
    simpl. auto.
Qed.

End PrintTreeReads.

Section SyncDb.
Context {FS : Type} (pfs : Pfs FS) (net : Net).

Lemma ensureDbDir_done db (fs : FS) :
  exists fs' tr, ensureDbDir pfs db fs = Done tt fs' tr.
Proof.
  rewrite ensureDbDir_run.
  destruct (present_as_dir _ _ _); [eauto|].
  destruct (pfs_mkdir _ _ _); eauto.
Qed.

Lemma syncDb_run fuel db (fs fs1 fs2 : FS) entries tr1 tr2 :
  listed net db "assets" = Ret entries ->
  ensureDbDir pfs db fs = Done tt fs1 tr1 ->
  for_of entries (syncAsset pfs net db) fs1 = Done tt fs2 tr2 ->
  exists rest,
    Forall read_or_log rest /\
    match syncDb pfs net fuel db fs with
    | Done _ fs3 tr =>
        fs3 = fs2 /\
        (tr = EvFetch (listing_request net db "assets")
              :: tr1 ++ tr2 ++ rest
         \/ exists e,
            tr = EvFetch (listing_request net db "assets")
                 :: tr1 ++ tr2 ++ rest ++ find_failed db e)%list
    | Threw _ _ _ => False
    | Diverged tr =>
        tr = (EvFetch (listing_request net db "assets")
              :: tr1 ++ tr2 ++ rest)%list
    end.
Proof.
  intros Hlist Hens Hloop. unfold syncDb, try_catch.
  unfold bind at 1. rewrite listDBDir_run, Hlist. cbv beta iota.
  unfold bind at 1. rewrite Hens. cbv beta iota.
  unfold bind at 1. rewrite Hloop. cbv beta iota.
  pose proof (printTree_observes pfs fuel "/" "" fs2) as Hobs.
  destruct (printTree pfs fuel "/" "" fs2) as [[] fs3 tr3|e fs3 tr3|tr3];
    simpl in Hobs; exists tr3.
  - destruct Hobs as [-> Hobs]. split; [exact Hobs|]. simpl.
    split; [reflexivity|]. left. reflexivity.
  - destruct Hobs as [-> Hobs]. split; [exact Hobs|]. simpl.
    split; [reflexivity|]. right. exists e.
    unfold find_failed. rewrite <- !app_assoc. reflexivity.
  - split; [exact Hobs|]. reflexivity.
Qed.

Lemma syncDb_listing_fails fuel db (fs : FS) e :
  listed net db "assets" = Raise e ->
  syncDb pfs net fuel db fs
  = Done tt fs (EvFetch (listing_request net db "assets") :: find_failed db e).
Proof.
  intros Hlist. unfold syncDb, try_catch.
  unfold bind at 1. rewrite listDBDir_run, Hlist. reflexivity.
Qed.

End SyncDb.

(** C3, as amended.  When the listing of a database succeeds, the sync first
    runs the ensure step on [/${db}], which begins with a [stat] and performs
    no write, and only then the asset loop.  After the ensure step the
    directory exists, unless [mkdir] failed: then the failure is logged, the
    filesystem is as it was, and the asset loop runs all the same. *)
Theorem ensure_precedes_asset_loop :
  forall (FS : Type) (pfs : Pfs FS) (net : Net) (fuel : nat) (db : string)
         (fs : FS) (entries : list DirEntry),
    listed net db "assets" = Ret entries ->
    (forall fs', pfs_mkdir pfs fs (dbPath db) = Ret fs' ->
                 present_as_dir pfs fs' (dbPath db) = true) ->
    exists fs1 tr1 fs2 tr2 rest,
      ensureDbDir pfs db fs = Done tt fs1 tr1 /\
      for_of entries (syncAsset pfs net db) fs1 = Done tt fs2 tr2 /\
      events (syncDb pfs net fuel db fs)
        = (EvFetch (listing_request net db "assets") :: tr1 ++ tr2 ++ rest)%list
      /\ hd_error tr1 = Some (EvStat (dbPath db))
      /\ existsb is_write tr1 = false
      /\ (present_as_dir pfs fs1 (dbPath db) = true
          \/ (fs1 = fs /\ present_as_dir pfs fs (dbPath db) = false /\
              tr1 = [EvStat (dbPath db); EvMkdir (dbPath db);
                     mkdir_failed db])).
Proof.
  intros FS pfs net fuel db fs entries Hlist Hmkdir.
  assert (Hens : exists fs1 tr1,
             ensureDbDir pfs db fs = Done tt fs1 tr1 /\
             hd_error tr1 = Some (EvStat (dbPath db)) /\
             existsb is_write tr1 = false /\
             (present_as_dir pfs fs1 (dbPath db) = true
              \/ (fs1 = fs /\ present_as_dir pfs fs (dbPath db) = false /\
                  tr1 = [EvStat (dbPath db); EvMkdir (dbPath db);
                         mkdir_failed db]))).
  { rewrite ensureDbDir_run.
    destruct (present_as_dir pfs fs (dbPath db)) eqn:Hdir.
    - exists fs, [EvStat (dbPath db)]. auto.
    - destruct (pfs_mkdir pfs fs (dbPath db)) as [fs'|ex] eqn:Hmk.
      + exists fs', [EvStat (dbPath db); EvMkdir (dbPath db)].
        repeat apply conj; auto.
      + exists fs, [EvStat (dbPath db); EvMkdir (dbPath db); mkdir_failed db].
        repeat apply conj; auto. }
  destruct Hens as (fs1 & tr1 & Hens & Hhd & Hnow & Hdir).
  destruct (for_of_done (syncAsset pfs net db) entries
              (syncAsset_done pfs net db) fs1) as (fs2 & tr2 & Hloop).
  destruct (syncDb_run pfs net fuel db fs fs1 fs2 entries tr1 tr2
              Hlist Hens Hloop) as (rest & _ & Hrun).
  destruct (syncDb pfs net fuel db fs) as [[] fs3 tr|e fs3 tr|tr];
    [|contradiction|].
  - destruct Hrun as [_ [->|[e ->]]].
    + exists fs1, tr1, fs2, tr2, rest. repeat apply conj; auto.
    + exists fs1, tr1, fs2, tr2, (rest ++ find_failed db e)%list.
      repeat apply conj; auto.
  - subst tr. exists fs1, tr1, fs2, tr2, rest. repeat apply conj; auto.
Qed.

Lemma ensure_precedes_asset_loop_witness :
  exists fs1 tr1 fs2 tr2 rest,
    ensureDbDir MemFS.pfs "mydb" MemFS.empty = Done tt fs1 tr1 /\
    for_of [EFile "a.png" "abc"]
      (syncAsset MemFS.pfs (server mydb_site) "mydb") fs1 = Done tt fs2 tr2 /\
    events (syncDb MemFS.pfs (server mydb_site) 5 "mydb" MemFS.empty)
      = (EvFetch (listing_request (server mydb_site) "mydb" "assets")
         :: tr1 ++ tr2 ++ rest)%list /\
    present_as_dir MemFS.pfs fs1 "/mydb" = true.
Proof.
  assert (Hmk : forall fs',
             pfs_mkdir MemFS.pfs MemFS.empty (dbPath "mydb") = Ret fs' ->
             present_as_dir MemFS.pfs fs' (dbPath "mydb") = true).
  { intros fs' H. vm_compute in H. injection H as <-. reflexivity. }
  destruct (ensure_precedes_asset_loop MemFS.node MemFS.pfs
              (server mydb_site) 5 "mydb" MemFS.empty [EFile "a.png" "abc"]
              eq_refl Hmk)
    as (fs1 & tr1 & fs2 & tr2 & rest & H1 & H2 & H3 & _ & _ & H4).
  exists fs1, tr1, fs2, tr2, rest. repeat apply conj; auto.
  destruct H4 as [H4|(_ & H4 & _)]; [exact H4|].
  vm_compute in H4.
  vm_compute in H1. injection H1 as <- _. reflexivity.
Defined.

(** C3 as stated fails: the asset loop can attempt a write although the
    ensure step has left no directory for the database. *)
Lemma write_attempted_without_directory :
  ~ (forall (FS : Type) (pfs : Pfs FS) (net : Net) (db : string)
            (entries : list DirEntry) (fs fs1 fs2 : FS) (tr1 tr2 : list Event),
        listed net db "assets" = Ret entries ->
        ensureDbDir pfs db fs = Done tt fs1 tr1 ->
        for_of entries (syncAsset pfs net db) fs1 = Done tt fs2 tr2 ->
        existsb is_write tr2 = true ->
        present_as_dir pfs fs1 (dbPath db) = true).
Proof.
  intros H.
  specialize (H MemFS.node MemFS.pfs (server mydb_site) "mydb"
                [EFile "a.png" "abc"] mydb_is_a_file mydb_is_a_file
                mydb_is_a_file
                [EvStat "/mydb"; EvMkdir "/mydb"; mkdir_failed "mydb"]
                [EvStat "/mydb/assets/a.png";
                 EvFetch (asset_request (server mydb_site) "mydb" "a.png");
                 EvWriteFile "/mydb/assets/a.png" a_png;
                 write_failed "mydb" "a.png"]
                eq_refl eq_refl eq_refl eq_refl).
  discriminate H.
Qed.

(** *** The reference filesystem keeps its files *)

Module MemFSFacts.
Import MemFS.

Lemma child_set_child_same k c cs : child k (set_child k c cs) = Some c.
Proof.
  induction cs as [|[k0 v0] cs IH]; simpl.
  - now rewrite String.eqb_refl.
  - destruct (String.eqb k0 k) eqn:E; simpl; rewrite E; auto.
Qed.

Lemma child_set_child_other k k' c cs :
  k' <> k -> child k' (set_child k c cs) = child k' cs.
Proof.
  intros Hne. induction cs as [|[k0 v0] cs IH]; simpl.
  - destruct (String.eqb_spec k k'); [congruence | reflexivity].
  - destruct (String.eqb_spec k0 k) as [->|Hk]; simpl.
    + destruct (String.eqb_spec k k'); [congruence | reflexivity].
    + rewrite IH. reflexivity.
Qed.

Lemma child_app_known k cs extra v :
  child k cs = Some v -> child k (cs ++ extra) = Some v.
Proof.
  induction cs as [|[k0 v0] cs IH]; simpl; [discriminate|].
  destruct (String.eqb k0 k); auto.
Qed.

Lemma in_dir_keeps_files f : gentle f ->
  forall q n n', in_dir q f n = Ret n' ->
    forall p d, lookup p n = Some (File d) ->
      exists d', lookup p n' = Some (File d').
Proof.
  intros Hf. induction q as [|seg q IH]; intros n n' Hin p d Hp;
    destruct n as [d0|cs]; simpl in Hin; try discriminate.
  - destruct (f cs) as [cs'|] eqn:Hfcs; [|discriminate].
    injection Hin as <-. destruct p as [|k p]; [discriminate|].
    simpl in Hp |- *. specialize (Hf cs cs' Hfcs k).
    destruct (child k cs) as [[dk|ds]|]; [| |discriminate].
    + destruct Hf as (d' & ->). destruct p; [|discriminate].
      exists d'. reflexivity.
    + rewrite Hf. exists d. exact Hp.
  - destruct (child seg cs) as [c|] eqn:Hc; [|discriminate].
    destruct (in_dir q f c) as [c'|] eqn:Hq; [|discriminate].
    injection Hin as <-. destruct p as [|k p]; [discriminate|].
    simpl in Hp |- *. destruct (String.eqb_spec k seg) as [->|Hne].
    + rewrite child_set_child_same. rewrite Hc in Hp. eapply IH; eauto.
    + rewrite child_set_child_other by assumption.
      destruct (child k cs); [|discriminate]. eauto.
Qed.

Lemma present_as_file_lookup fs path :
  present_as_file pfs fs path = true <->
  exists d, lookup (segments path) fs = Some (File d).
Proof.
  unfold present_as_file, pfs, stat. simpl.
  destruct (lookup (segments path) fs) as [[d|cs]|]; simpl; split;
    try discriminate; eauto; intros [d' H]; discriminate.
Qed.

Lemma mkdir_gentle name :
  gentle (fun cs =>
            match child name cs with
            | Some _ => Raise EEXIST
            | None => Ret (cs ++ [(name, Dir [])])%list
            end).
Proof.
  intros cs cs' H k. destruct (child name cs); [discriminate|].
  injection H as <-. destruct (child k cs) as [[d|ds]|] eqn:Hk; auto.
  - exists d. now apply child_app_known.
  - now apply child_app_known.
Qed.

Lemma writeFile_gentle name data :
  gentle (fun cs =>
            match child name cs with
            | Some (Dir _) => Raise EISDIR
            | _ => Ret (set_child name (File data) cs)
            end).
Proof.
  intros cs cs' H k.
  destruct (String.eqb_spec k name) as [->|Hne].
  - destruct (child name cs) as [[d|ds]|]; try discriminate; auto.
    injection H as <-. exists data. apply child_set_child_same.
  - assert (cs' = set_child name (File data) cs) as ->.
    { destruct (child name cs) as [[d|ds]|]; try discriminate;
        now injection H as <-. }
    rewrite child_set_child_other by assumption.
    destruct (child k cs) as [[d|ds]|]; eauto.
Qed.

Lemma mkdir_keeps_files fs q fs' p :
  pfs_mkdir pfs fs q = Ret fs' ->
  present_as_file pfs fs p = true -> present_as_file pfs fs' p = true.
Proof.
  rewrite !present_as_file_lookup. simpl. unfold mkdir.
  intros H [d Hp]. destruct (segments q) as [|s0 segs] eqn:Hq;
    [discriminate|].
  eapply in_dir_keeps_files; eauto using mkdir_gentle.
Qed.

Lemma writeFile_keeps_files fs q data fs' p :
  pfs_writeFile pfs fs q data = Ret fs' ->
  present_as_file pfs fs p = true -> present_as_file pfs fs' p = true.
Proof.
  rewrite !present_as_file_lookup. simpl. unfold writeFile.
  intros H [d Hp]. destruct (segments q) as [|s0 segs] eqn:Hq;
    [discriminate|].
  eapply in_dir_keeps_files; eauto using writeFile_gentle.
Qed.

(** A rewriting that changes one child only makes a file at most at or
    below the path of that child. *)
Lemma in_dir_makes_files_below base v f : only_at base v f ->
  forall q n n', in_dir q f n = Ret n' ->
    forall p d, lookup p n' = Some (File d) ->
      lookup p n = Some (File d) \/
      exists p', p = (q ++ base :: p')%list /\ lookup p' v = Some (File d).
Proof.
  intros Hf. induction q as [|seg q IH]; intros n n' Hin p d Hp;
    destruct n as [d0|cs]; simpl in Hin; try discriminate.
  - destruct (f cs) as [cs'|] eqn:Hfcs; [|discriminate].
    injection Hin as <-. destruct p as [|k p]; [discriminate|].
    simpl in Hp |- *.
    destruct (Hf cs cs' Hfcs k) as [Hsame|[-> Hnew]].
    + rewrite Hsame in Hp. left. exact Hp.
    + rewrite Hnew in Hp. right. exists p. split; [reflexivity | exact Hp].
  - destruct (child seg cs) as [c|] eqn:Hc; [|discriminate].
    destruct (in_dir q f c) as [c'|] eqn:Hq; [|discriminate].
    injection Hin as <-. destruct p as [|k p]; [discriminate|].
    simpl in Hp |- *. destruct (String.eqb_spec k seg) as [->|Hne].
    + rewrite child_set_child_same in Hp. rewrite Hc.
      destruct (IH c c' Hq p d Hp) as [H|(p' & -> & H)]; [left; exact H|].
      right. exists p'. split; [reflexivity | exact H].
    + rewrite child_set_child_other in Hp by assumption. left. exact Hp.
Qed.

Lemma child_app_fresh k cs name v :
  child k cs = None ->
  child k (cs ++ [(name, v)]) = if String.eqb name k then Some v else None.
Proof.
  induction cs as [|[k0 v0] cs IH]; simpl; [reflexivity|].
  destruct (String.eqb k0 k); [discriminate | exact IH].
Qed.

Lemma mkdir_only_at name :
  only_at name (Dir [])
    (fun cs =>
       match child name cs with
       | Some _ => Raise EEXIST
       | None => Ret (cs ++ [(name, Dir [])])%list
       end).
Proof.
  intros cs cs' H k. destruct (child name cs) eqn:Hn; [discriminate|].
  injection H as <-. destruct (child k cs) as [c|] eqn:Hk.
  - left. now apply child_app_known.
  - rewrite (child_app_fresh _ _ _ _ Hk).
    destruct (String.eqb_spec name k) as [->|Hne]; [right|left]; auto.
Qed.

Lemma writeFile_only_at name data :
  only_at name (File data)
    (fun cs =>
       match child name cs with
       | Some (Dir _) => Raise EISDIR
       | _ => Ret (set_child name (File data) cs)
       end).
Proof.
  intros cs cs' H k.
  assert (cs' = set_child name (File data) cs) as ->.
  { destruct (child name cs) as [[d|ds]|]; try discriminate;
      now injection H as <-. }
  destruct (String.eqb_spec k name) as [->|Hne].
  - right. split; [reflexivity | apply child_set_child_same].
  - left. now apply child_set_child_other.
Qed.

(** [mkdir] makes no file. *)
Lemma mkdir_makes_no_file fs q fs' p :
  pfs_mkdir pfs fs q = Ret fs' ->
  present_as_file pfs fs p = false -> present_as_file pfs fs' p = false.
Proof.
  intros H Hp. destruct (present_as_file pfs fs' p) eqn:Hp'; [|reflexivity].
  apply present_as_file_lookup in Hp'. destruct Hp' as [d Hd].
  simpl in H. unfold mkdir in H.
  destruct (segments q) as [|s0 segs] eqn:Hq; [discriminate|].
  destruct (in_dir_makes_files_below _ _ _ (mkdir_only_at _) _ _ _ H _ _ Hd)
    as [Hold|(p' & _ & Hnew)].
  - assert (present_as_file pfs fs p = true)
      by (apply present_as_file_lookup; eauto).
    congruence.
  - destruct p'; simpl in Hnew; discriminate.
Qed.

(** [writeFile] makes a file at its own path only. *)
Lemma writeFile_makes_its_file fs q data fs' p :
  pfs_writeFile pfs fs q data = Ret fs' ->
  segments p <> segments q ->
  present_as_file pfs fs p = false -> present_as_file pfs fs' p = false.
Proof.
  intros H Hne Hp.
  destruct (present_as_file pfs fs' p) eqn:Hp'; [|reflexivity].
  apply present_as_file_lookup in Hp'. destruct Hp' as [d Hd].
  simpl in H. unfold writeFile in H.
  destruct (segments q) as [|s0 segs] eqn:Hq; [discriminate|].
  destruct (in_dir_makes_files_below _ _ _ (writeFile_only_at _ _) _ _ _ H
              _ _ Hd) as [Hold|(p' & Hpath & Hnew)].
  - assert (present_as_file pfs fs p = true)
      by (apply present_as_file_lookup; eauto).
    congruence.
  - destruct p' as [|k p']; [|simpl in Hnew; discriminate].
    exfalso. apply Hne. rewrite Hpath.
    symmetry. apply app_removelast_last. discriminate.
Qed.

End MemFSFacts.

Section Idempotence.
Context {FS : Type} (pfs : Pfs FS) (net : Net).
Hypothesis Hkeeps : keeps_files pfs.
Variables db name : string.

Lemma read_or_log_untouched ev : read_or_log ev -> ~ touches net db name ev.
Proof.
  intros H [->|[d ->]]; exact H.
Qed.

Lemma ensureDbDir_keeps (fs fs' : FS) tr :
  present_as_file pfs fs (assetPath db name) = true ->
  ensureDbDir pfs db fs = Done tt fs' tr ->
  present_as_file pfs fs' (assetPath db name) = true /\
  Forall (fun ev => ~ touches net db name ev) tr.
Proof.
  intros Hp. rewrite ensureDbDir_run.
  assert (Hstat : forall p', ~ touches net db name (EvStat p'))
    by (intros p' [H|[d H]]; discriminate H).
  assert (Hmkdir : forall p', ~ touches net db name (EvMkdir p'))
    by (intros p' [H|[d H]]; discriminate H).
  assert (Hfail : ~ touches net db name (mkdir_failed db))
    by (intros [H|[d H]]; discriminate H).
  destruct (present_as_dir _ _ _).
  - intros H. injection H as <- <-. split; [exact Hp|].
    repeat constructor; auto.
  - destruct (pfs_mkdir pfs fs (dbPath db)) as [s'|ex] eqn:Hmk;
      intros H; injection H as <- <-.
    + split; [eapply (proj1 Hkeeps); eauto|]. repeat constructor; auto.
    + split; [exact Hp|]. repeat constructor; auto.
Qed.

Lemma syncAsset_keeps e (fs fs' : FS) tr :
  (asset_request net db (entry_name e) = asset_request net db name ->
   entry_name e = name) ->
  present_as_file pfs fs (assetPath db name) = true ->
  syncAsset pfs net db e fs = Done tt fs' tr ->
  present_as_file pfs fs' (assetPath db name) = true /\
  Forall (fun ev => ~ touches net db name ev) tr.
Proof.
  intros Hinj Hp. rewrite syncAsset_run.
  destruct (present_as_file pfs fs (assetPath db (entry_name e))) eqn:He.
  - intros H. injection H as <- <-. split; [exact Hp|].
    repeat constructor. intros [H|[d H]]; discriminate H.
  - assert (Hne : entry_name e <> name)
      by (intros Heq; rewrite Heq in He; congruence).
    assert (Hreq : asset_request net db (entry_name e)
                   <> asset_request net db name) by auto.
    assert (Hpath : assetPath db (entry_name e) <> assetPath db name)
      by (intros Heq; rewrite Heq in He; congruence).
    assert (Hstat : ~ touches net db name
                      (EvStat (assetPath db (entry_name e))))
      by (intros [H|[d H]]; discriminate H).
    assert (Hfetch : ~ touches net db name
                       (EvFetch (asset_request net db (entry_name e))))
      by (intros [H|[d H]]; [apply Hreq; congruence | discriminate H]).
    assert (Hwrite : forall data,
               ~ touches net db name
                   (EvWriteFile (assetPath db (entry_name e)) data))
      by (intros data [H|[d H]]; [discriminate H | apply Hpath; congruence]).
    assert (Hfail : ~ touches net db name (write_failed db (entry_name e)))
      by (intros [H|[d H]]; discriminate H).
    destruct (fetched _ _ _) as [data|ex].
    + destruct (pfs_writeFile pfs fs _ data) as [s'|ex] eqn:Hw;
        intros H; injection H as <- <-.
      * split; [eapply (proj2 Hkeeps); eauto|].
        repeat constructor; auto. intros [H|[d H]]; discriminate H.
      * split; [exact Hp|]. repeat constructor; auto.
    + intros H. injection H as <- <-. split; [exact Hp|].
      repeat constructor; auto.
Qed.

Lemma asset_loop_keeps entries : forall (fs fs' : FS) tr,
  (forall e, In e entries ->
     asset_request net db (entry_name e) = asset_request net db name ->
     entry_name e = name) ->
  present_as_file pfs fs (assetPath db name) = true ->
  for_of entries (syncAsset pfs net db) fs = Done tt fs' tr ->
  present_as_file pfs fs' (assetPath db name) = true /\
  Forall (fun ev => ~ touches net db name ev) tr.
Proof.
  induction entries as [|e entries IH]; intros fs fs' tr Hinj Hp.
  - simpl. intros H. injection H as <- <-. auto.
  - cbn [for_of]. unfold bind.
    destruct (syncAsset_done pfs net db e fs) as (fs1 & tr1 & H1).
    rewrite H1.
    destruct (syncAsset_keeps e fs fs1 tr1 (Hinj e (or_introl eq_refl)) Hp H1)
      as [Hp1 Htr1].
    destruct (for_of entries _ fs1) as [[] fs2 tr2|ex fs2 tr2|tr2] eqn:H2;
      simpl; intros H; try discriminate. injection H as <- <-.
    destruct (IH fs1 fs2 tr2 (fun e' He' => Hinj e' (or_intror He')) Hp1 H2)
      as [Hp2 Htr2].
    split; [exact Hp2 | now apply Forall_app].
Qed.

End Idempotence.

Section TwoRuns.
Context {FS : Type} (pfs : Pfs FS) (net : Net).
Variables db name : string.

(** An entry with another request sends no request for the asset, and leaves
    the asset absent when its own write does. *)
Lemma syncAsset_of_another e (fs fs' : FS) tr :
  asset_request net db (entry_name e) <> asset_request net db name ->
  syncAsset pfs net db e fs = Done tt fs' tr ->
  ~ In (EvFetch (asset_request net db name)) tr /\
  (writeFile_leaves_absent pfs (assetPath db name)
     (assetPath db (entry_name e)) ->
   present_as_file pfs fs (assetPath db name) = false ->
   present_as_file pfs fs' (assetPath db name) = false).
Proof.
  intros Hreq. rewrite syncAsset_run.
  assert (Hf : EvFetch (asset_request net db (entry_name e))
               <> EvFetch (asset_request net db name))
    by (intros H; apply Hreq; congruence).
  destruct (present_as_file pfs fs (assetPath db (entry_name e))).
  - intros H. injection H as <- <-. split; [|auto].
    intros [H|[]]; discriminate H.
  - destruct (fetched _ _ _) as [data|ex].
    + destruct (pfs_writeFile pfs fs _ data) as [s'|ex] eqn:Hw;
        intros H; injection H as <- <-.
      * split; [|intros Hsep Habs; exact (Hsep _ _ _ Hw Habs)].
        intros [H|[H|[H|[H|[]]]]]; try discriminate H. now apply Hf.
      * split; [|auto].
        intros [H|[H|[H|[H|[]]]]]; try discriminate H. now apply Hf.
    + intros H. injection H as <- <-. split; [|auto].
      intros [H|[H|[H|[]]]]; try discriminate H. now apply Hf.
Qed.

Lemma asset_loop_of_others entries : forall (fs fs' : FS) tr,
  Forall (fun e => asset_request net db (entry_name e)
                   <> asset_request net db name) entries ->
  for_of entries (syncAsset pfs net db) fs = Done tt fs' tr ->
  ~ In (EvFetch (asset_request net db name)) tr /\
  (Forall (fun e => writeFile_leaves_absent pfs (assetPath db name)
                      (assetPath db (entry_name e))) entries ->
   present_as_file pfs fs (assetPath db name) = false ->
   present_as_file pfs fs' (assetPath db name) = false).
Proof.
  induction entries as [|e entries IH]; intros fs fs' tr Hreq.
  - simpl. intros H. injection H as <- <-. split; [intros []|auto].
  - inversion Hreq as [|e0 es He Hes]; subst. cbn [for_of]. unfold bind.
    destruct (syncAsset_done pfs net db e fs) as (fs1 & tr1 & H1).
    rewrite H1.
    destruct (syncAsset_of_another e fs fs1 tr1 He H1) as [Hn1 Ha1].
    destruct (for_of entries _ fs1) as [[] fs2 tr2|ex fs2 tr2|tr2] eqn:H2;
      simpl; intros H; try discriminate. injection H as <- <-.
    destruct (IH fs1 fs2 tr2 Hes H2) as [Hn2 Ha2].
    split.
    + intros Hin. apply in_app_or in Hin. tauto.
    + intros Hsep Habs. inversion Hsep as [|e0 es Hs Hss]; subst. auto.
Qed.

(** The entry of the asset itself, when the asset is absent: one request,
    and the asset is a file afterwards only if it was fetched and written. *)
Lemma syncAsset_of_absent e (fs fs' : FS) tr :
  entry_name e = name ->
  present_as_file pfs fs (assetPath db name) = false ->
  syncAsset pfs net db e fs = Done tt fs' tr ->
  exactly_once (EvFetch (asset_request net db name)) tr /\
  (present_as_file pfs fs' (assetPath db name) = true ->
   exists data,
     fetched net db ("assets/" ++ name) = Ret data /\
     pfs_writeFile pfs fs (assetPath db name) data = Ret fs' /\
     In (EvWriteFile (assetPath db name) data) tr).
Proof.
  intros <- Habs. rewrite syncAsset_run, Habs.
  destruct (fetched _ _ _) as [data|ex].
  - destruct (pfs_writeFile pfs fs _ data) as [s'|ex] eqn:Hw;
      intros H; injection H as <- <-.
    + split.
      * exists [EvStat (assetPath db (entry_name e))],
          [EvWriteFile (assetPath db (entry_name e)) data;
           EvLog ("Wrote asset file at " ++ db ++ "/assets/" ++ entry_name e)].
        repeat split.
        -- intros [H|[]]; discriminate H.
        -- intros [H|[H|[]]]; discriminate H.
      * intros _. exists data.
        split; [reflexivity|split; [exact Hw|simpl; auto]].
    + split.
      * exists [EvStat (assetPath db (entry_name e))],
          [EvWriteFile (assetPath db (entry_name e)) data;
           write_failed db (entry_name e)].
        repeat split.
        -- intros [H|[]]; discriminate H.
        -- intros [H|[H|[]]]; discriminate H.
      * intros H. congruence.
  - intros H. injection H as <- <-. split.
    + exists [EvStat (assetPath db (entry_name e))],
        [write_failed db (entry_name e)].
      repeat split.
      * intros [H|[]]; discriminate H.
      * intros [H|[]]; discriminate H.
    + intros H. congruence.
Qed.

Lemma ensureDbDir_of_absent (fs fs' : FS) tr :
  mkdir_leaves_absent pfs (assetPath db name) (dbPath db) ->
  present_as_file pfs fs (assetPath db name) = false ->
  ensureDbDir pfs db fs = Done tt fs' tr ->
  ~ In (EvFetch (asset_request net db name)) tr /\
  present_as_file pfs fs' (assetPath db name) = false.
Proof.
  intros Hsep Habs. rewrite ensureDbDir_run.
  destruct (present_as_dir _ _ _).
  - intros H. injection H as <- <-. split; [|exact Habs].
    intros [H|[]]; discriminate H.
  - destruct (pfs_mkdir pfs fs (dbPath db)) as [s'|ex] eqn:Hmk;
      intros H; injection H as <- <-.
    + split; [|exact (Hsep _ _ Hmk Habs)].
      intros [H|[H|[]]]; discriminate H.
    + split; [|exact Habs].
      intros [H|[H|[H|[]]]]; discriminate H.
Qed.

Lemma exactly_once_between {E} (ev : E) l1 tr l2 :
  ~ In ev l1 -> exactly_once ev tr -> ~ In ev l2 ->
  exactly_once ev (l1 ++ tr ++ l2).
Proof.
  intros H1 (b & a & -> & Hb & Ha) H2.
  exists (l1 ++ b)%list, (a ++ l2)%list. repeat split.
  - rewrite <- !app_assoc. reflexivity.
  - intros H. apply in_app_or in H. tauto.
  - intros H. apply in_app_or in H. tauto.
Qed.

Lemma read_or_log_not_fetch rest :
  Forall read_or_log rest -> ~ In (EvFetch (asset_request net db name)) rest.
Proof.
  intros H Hin. rewrite Forall_forall in H. exact (H _ Hin).
Qed.

(** The first of two runs, for an asset that is listed once and absent
    before the run. *)
Lemma first_run_of_absent fuel e before rest (fs fs1 : FS) tr1 :
  entry_name e = name ->
  listed net db "assets" = Ret (before ++ e :: rest)%list ->
  Forall (fun e' => asset_request net db (entry_name e')
                    <> asset_request net db name) (before ++ rest) ->
  Forall (fun e' => writeFile_leaves_absent pfs (assetPath db name)
                      (assetPath db (entry_name e'))) (before ++ rest) ->
  mkdir_leaves_absent pfs (assetPath db name) (dbPath db) ->
  present_as_file pfs fs (assetPath db name) = false ->
  syncDb pfs net fuel db fs = Done tt fs1 tr1 ->
  exactly_once (EvFetch (asset_request net db name)) tr1 /\
  (present_as_file pfs fs1 (assetPath db name) = true ->
   exists data,
     fetched net db ("assets/" ++ name) = Ret data /\
     In (EvWriteFile (assetPath db name) data) tr1).
Proof.
  intros He Hlist Hreq Hsep Hmk Habs Hrun.
  apply Forall_app in Hreq as [Hreq1 Hreq2].
  apply Forall_app in Hsep as [Hsep1 Hsep2].
  destruct (ensureDbDir_done pfs db fs) as (fa & ta & Hens).
  destruct (ensureDbDir_of_absent fs fa ta Hmk Habs Hens) as [Hna Haa].
  destruct (for_of_done (syncAsset pfs net db) before
              (syncAsset_done pfs net db) fa) as (fb & tb & Hb).
  destruct (asset_loop_of_others before fa fb tb Hreq1 Hb) as [Hnb Hab].
  specialize (Hab Hsep1 Haa).
  destruct (syncAsset_done pfs net db e fb) as (fc & tc & Hc).
  destruct (syncAsset_of_absent e fb fc tc He Hab Hc) as [Hone Hwritten].
  destruct (for_of_done (syncAsset pfs net db) rest
              (syncAsset_done pfs net db) fc) as (fd & td & Hd).
  destruct (asset_loop_of_others rest fc fd td Hreq2 Hd) as [Hnd Had].
  assert (Hloop : for_of (before ++ e :: rest) (syncAsset pfs net db) fa
                  = Done tt fd (tb ++ tc ++ td)%list).
  { rewrite (for_of_app _ _ _ _ _ _ Hb). cbn [for_of]. unfold bind.
    rewrite Hc, Hd. reflexivity. }
  destruct (syncDb_run pfs net fuel db fs fa fd _ ta _ Hlist Hens Hloop)
    as (rest' & Hrest & Hshape).
  rewrite Hrun in Hshape. destruct Hshape as [-> Htr].
  assert (Hlisting : EvFetch (listing_request net db "assets")
                     <> EvFetch (asset_request net db name))
    by discriminate.
  assert (Hnr : ~ In (EvFetch (asset_request net db name)) rest')
    by now apply read_or_log_not_fetch.
  split.
  - destruct Htr as [->|[ex ->]].
    + replace (EvFetch (listing_request net db "assets")
               :: ta ++ (tb ++ tc ++ td) ++ rest')%list
        with ((EvFetch (listing_request net db "assets") :: ta ++ tb)
              ++ tc ++ (td ++ rest'))%list
        by (simpl; now rewrite <- !app_assoc).
      apply exactly_once_between; [|exact Hone|].
      * intros [H|H]; [now apply Hlisting|]. apply in_app_or in H. tauto.
      * intros H. apply in_app_or in H. tauto.
    + replace (EvFetch (listing_request net db "assets")
               :: ta ++ (tb ++ tc ++ td) ++ rest' ++ find_failed db ex)%list
        with ((EvFetch (listing_request net db "assets") :: ta ++ tb)
              ++ tc ++ (td ++ rest' ++ find_failed db ex))%list
        by (simpl; now rewrite <- !app_assoc).
      apply exactly_once_between; [|exact Hone|].
      * intros [H|H]; [now apply Hlisting|]. apply in_app_or in H. tauto.
      * intros H. apply in_app_or in H as [H|H]; [tauto|].
        apply in_app_or in H as [H|H]; [tauto|].
        destruct H as [H|[H|[]]]; discriminate H.
  - intros Hpres.
    destruct (present_as_file pfs fc (assetPath db name)) eqn:Hpc.
    + destruct (Hwritten eq_refl) as (data & Hf & _ & Hin).
      exists data. split; [exact Hf|].
      destruct Htr as [->|[ex ->]]; right; apply in_or_app; right;
        apply in_or_app; left; apply in_or_app; right; apply in_or_app; left;
        exact Hin.
    + specialize (Had Hsep2 eq_refl). congruence.
Qed.

End TwoRuns.

(** C2, as amended.  On a filesystem that keeps its files: if
    [/${db}/assets/${name}] is a file when the sync of a database starts,
    then that sync neither fetches the asset nor writes to its path, and the
    path is still a file when the sync ends; and two runs fetch exactly once,
    both runs taken together, an asset that is listed once, is absent before
    the first run and is a local file after it, where nothing but the write
    of the asset itself makes its path a file: the first run fetched it once
    and wrote the fetched bytes, the second run sends no request for it. *)
Theorem present_asset_not_refetched :
  forall (FS : Type) (pfs : Pfs FS) (net : Net) (fuel : nat) (db : string),
    keeps_files pfs ->
    (forall (name : string) (fs : FS) (entries : list DirEntry),
        listed net db "assets" = Ret entries ->
        (forall e, In e entries ->
           asset_request net db (entry_name e) = asset_request net db name ->
           entry_name e = name) ->
        present_as_file pfs fs (assetPath db name) = true ->
        Forall (fun ev => ~ touches net db name ev)
          (events (syncDb pfs net fuel db fs)) /\
        (forall fs', final (syncDb pfs net fuel db fs) = Some fs' ->
                     present_as_file pfs fs' (assetPath db name) = true)) /\
    (forall (e : DirEntry) (before rest : list DirEntry)
            (fs fs1 fs2 : FS) (tr1 tr2 : list Event),
        listed net db "assets" = Ret (before ++ e :: rest)%list ->
        Forall (fun e' =>
                  asset_request net db (entry_name e')
                  <> asset_request net db (entry_name e) /\
                  writeFile_leaves_absent pfs
                    (assetPath db (entry_name e))
                    (assetPath db (entry_name e')))
          (before ++ rest) ->
        mkdir_leaves_absent pfs (assetPath db (entry_name e)) (dbPath db) ->
        present_as_file pfs fs (assetPath db (entry_name e)) = false ->
        syncDb pfs net fuel db fs = Done tt fs1 tr1 ->
        present_as_file pfs fs1 (assetPath db (entry_name e)) = true ->
        syncDb pfs net fuel db fs1 = Done tt fs2 tr2 ->
        exactly_once (EvFetch (asset_request net db (entry_name e)))
          (tr1 ++ tr2) /\
        exactly_once (EvFetch (asset_request net db (entry_name e))) tr1 /\
        ~ In (EvFetch (asset_request net db (entry_name e))) tr2 /\
        (exists data,
            fetched net db ("assets/" ++ entry_name e) = Ret data /\
            In (EvWriteFile (assetPath db (entry_name e)) data) tr1) /\
        present_as_file pfs fs2 (assetPath db (entry_name e)) = true).
Proof.
  intros FS pfs net fuel db Hkeeps.
  assert (Hfirst :
    forall (name : string) (fs : FS) (entries : list DirEntry),
      listed net db "assets" = Ret entries ->
      (forall e, In e entries ->
         asset_request net db (entry_name e) = asset_request net db name ->
         entry_name e = name) ->
      present_as_file pfs fs (assetPath db name) = true ->
      Forall (fun ev => ~ touches net db name ev)
        (events (syncDb pfs net fuel db fs)) /\
      (forall fs', final (syncDb pfs net fuel db fs) = Some fs' ->
                   present_as_file pfs fs' (assetPath db name) = true)).
  { intros name fs entries Hlist Hinj Hp.
    destruct (ensureDbDir_done pfs db fs) as (fs1' & tr1' & He).
    destruct (ensureDbDir_keeps pfs net Hkeeps db name fs fs1' tr1' Hp He)
      as [Hp1 Htr1].
    destruct (for_of_done (syncAsset pfs net db) entries
                (syncAsset_done pfs net db) fs1') as (fs2 & tr2 & Hloop).
    destruct (asset_loop_keeps pfs net Hkeeps db name entries fs1' fs2 tr2
                Hinj Hp1 Hloop) as [Hp2 Htr2].
    destruct (syncDb_run pfs net fuel db fs fs1' fs2 entries tr1' tr2
                Hlist He Hloop) as (rest & Hrest & Hrun).
    assert (Hlisting : ~ touches net db name
                         (EvFetch (listing_request net db "assets")))
      by (intros [H|[d H]]; discriminate H).
    assert (Hrest' : Forall (fun ev => ~ touches net db name ev) rest).
    { eapply Forall_impl; [|exact Hrest].
      intros ev. apply read_or_log_untouched. }
    destruct (syncDb pfs net fuel db fs) as [[] fs3 tr|ex fs3 tr|tr];
      [|contradiction|]; simpl.
    - destruct Hrun as [-> Htr]. split; [|intros fs' H; now injection H as <-].
      destruct Htr as [->|[ex ->]]; constructor; auto;
        repeat (apply Forall_app; split); auto.
      unfold find_failed.
      repeat constructor; intros [H|[d H]]; discriminate H.
    - subst tr. split; [|discriminate].
      constructor; auto. repeat (apply Forall_app; split); auto. }
  split; [exact Hfirst|].
  intros e before rest fs fs1 fs2 tr1 tr2 Hlist Hothers Hmk Habs Hrun1 Hpres
    Hrun2.
  assert (Hreq : Forall (fun e' => asset_request net db (entry_name e')
                                   <> asset_request net db (entry_name e))
                   (before ++ rest))
    by (eapply Forall_impl; [|exact Hothers]; intros a [H _]; exact H).
  assert (Hsep : Forall (fun e' => writeFile_leaves_absent pfs
                                     (assetPath db (entry_name e))
                                     (assetPath db (entry_name e')))
                   (before ++ rest))
    by (eapply Forall_impl; [|exact Hothers]; intros a [_ H]; exact H).
  destruct (first_run_of_absent pfs net db (entry_name e) fuel e before rest
              fs fs1 tr1 eq_refl Hlist Hreq Hsep Hmk Habs Hrun1)
    as [Hone Hwritten].
  assert (Hinj : forall e', In e' (before ++ e :: rest) ->
            asset_request net db (entry_name e')
            = asset_request net db (entry_name e) ->
            entry_name e' = entry_name e).
  { intros e' Hin Heq. apply in_app_or in Hin as [Hin|[<-|Hin]];
      [|reflexivity|]; exfalso; rewrite Forall_forall in Hreq;
      apply (Hreq e'); auto; apply in_or_app; auto. }
  destruct (Hfirst (entry_name e) fs1 _ Hlist Hinj Hpres)
    as [Huntouched Hstill].
  rewrite Hrun2 in Huntouched, Hstill. simpl in Huntouched, Hstill.
  assert (Hn2 : ~ In (EvFetch (asset_request net db (entry_name e))) tr2).
  { intros Hin. rewrite Forall_forall in Huntouched.
    apply (Huntouched _ Hin). left. reflexivity. }
  repeat apply conj.
  - replace (tr1 ++ tr2)%list with ([] ++ tr1 ++ tr2)%list by reflexivity.
    apply exactly_once_between; [intros []|exact Hone|exact Hn2].
  - exact Hone.
  - exact Hn2.
  - exact (Hwritten Hpres).
  - exact (Hstill fs2 eq_refl).
Qed.

Lemma present_asset_not_refetched_witness :
  (Forall (fun ev => ~ touches (server two_assets_site) "mydb" "a.png" ev)
     (events (syncDb MemFS.pfs (server two_assets_site) 5 "mydb"
                a_png_mirrored)) /\
   (forall fs',
       final (syncDb MemFS.pfs (server two_assets_site) 5 "mydb"
                a_png_mirrored) = Some fs' ->
       present_as_file MemFS.pfs fs' (assetPath "mydb" "a.png") = true)) /\
  syncDb MemFS.pfs (server two_assets_site) 5 "mydb" assets_dir_ready
  = Done tt both_mirrored
      (events (syncDb MemFS.pfs (server two_assets_site) 5 "mydb"
                 assets_dir_ready)) /\
  exactly_once
    (EvFetch (asset_request (server two_assets_site) "mydb" "a.png"))
    (events (syncDb MemFS.pfs (server two_assets_site) 5 "mydb"
               assets_dir_ready)
     ++ events (syncDb MemFS.pfs (server two_assets_site) 5 "mydb"
                  both_mirrored)).
Proof.
  destruct (present_asset_not_refetched MemFS.node MemFS.pfs
              (server two_assets_site) 5 "mydb"
              (conj MemFSFacts.mkdir_keeps_files
                 MemFSFacts.writeFile_keeps_files)) as [Hfirst Htwo].
  split; [|split; [reflexivity|]].
  - apply (Hfirst "a.png" a_png_mirrored
             [EFile "a.png" "abc"; EFile "b.png" "def"]).
    + reflexivity.
    + intros e [<-|[<-|[]]] H; [reflexivity | discriminate H].
    + reflexivity.
  - refine (proj1 (Htwo (EFile "a.png" "abc") [] [EFile "b.png" "def"]
                     assets_dir_ready both_mirrored both_mirrored _ _
                     eq_refl _ _ eq_refl eq_refl eq_refl eq_refl)).
    + constructor; [|constructor]. split; [discriminate|].
      intros s d s' Hw. eapply MemFSFacts.writeFile_makes_its_file;
        [exact Hw | discriminate].
    + intros s s' Hm. eapply MemFSFacts.mkdir_makes_no_file. exact Hm.
Defined.

(** C2 as stated fails: two runs against the same remote listing do not
    always fetch each asset exactly once between them. *)
Lemma two_runs_not_one_fetch_per_asset :
  ~ (forall (FS : Type) (pfs : Pfs FS) (net : Net) (fuel : nat) (db : string)
            (entries : list DirEntry) (fs fs1 fs2 : FS) (tr1 tr2 : list Event),
        listed net db "assets" = Ret entries ->
        syncDb pfs net fuel db fs = Done tt fs1 tr1 ->
        syncDb pfs net fuel db fs1 = Done tt fs2 tr2 ->
        forall e, In e entries ->
          fetch_count (req_url (asset_request net db (entry_name e)))
            (tr1 ++ tr2) = 1).
Proof.
  intros H.
  specialize (H MemFS.node MemFS.pfs (server listed_only_site) 5 "mydb"
                [EFile "a.png" "abc"] assets_dir_ready assets_dir_ready
                assets_dir_ready _ _ eq_refl eq_refl eq_refl
                (EFile "a.png" "abc") (or_introl eq_refl)).
  vm_compute in H. discriminate H.
Qed.

(** C1, at its own input.  From the empty store, one sync of [mydb] creates
    the directory [/mydb] and fetches [a.png], but the write of
    [/mydb/assets/a.png] is rejected, because nothing has created
    [/mydb/assets]; the failure is logged and the file is absent.  A second
    sync fetches [a.png] again, with the same result. *)
Theorem mirror_scenario_from_empty_store :
  exists fs1 tr1 tr2,
    downloadAssets MemFS.pfs (server mydb_site) 5 [mkDb "mydb"] MemFS.empty
      = Done tt fs1 tr1 /\
    fs1 = MemFS.Dir [("mydb", MemFS.Dir [])] /\
    present_as_dir MemFS.pfs fs1 "/mydb" = true /\
    present_as_file MemFS.pfs fs1 "/mydb/assets/a.png" = false /\
    In (EvWriteFile "/mydb/assets/a.png" a_png) tr1 /\
    In (write_failed "mydb" "a.png") tr1 /\
    fetch_count "/estorage/mydb/assets/a.png" tr1 = 1 /\
    downloadAssets MemFS.pfs (server mydb_site) 5 [mkDb "mydb"] fs1
      = Done tt fs1 tr2 /\
    fetch_count "/estorage/mydb/assets/a.png" tr2 = 1.
Proof.
  do 3 eexists. repeat apply conj; try reflexivity.
  - vm_compute. do 5 right. left. reflexivity.
  - vm_compute. do 6 right. left. reflexivity.
Qed.

(** The same scenario succeeds once [/mydb/assets] exists: the file is
    written with the fetched bytes, and a second sync sends no request for
    it. *)
Lemma mirror_scenario_with_assets_dir :
  exists fs1 tr1 tr2,
    downloadAssets MemFS.pfs (server mydb_site) 5 [mkDb "mydb"]
      assets_dir_ready = Done tt fs1 tr1 /\
    MemFS.lookup ["mydb"; "assets"; "a.png"] fs1 = Some (MemFS.File a_png) /\
    fetch_count "/estorage/mydb/assets/a.png" tr1 = 1 /\
    downloadAssets MemFS.pfs (server mydb_site) 5 [mkDb "mydb"] fs1
      = Done tt fs1 tr2 /\
    fetch_count "/estorage/mydb/assets/a.png" tr2 = 0.
Proof.
  do 3 eexists. repeat apply conj; reflexivity.
Qed.

(** ** The tree inspector *)

Section PrintTree.
Context {FS : Type} (pfs : Pfs FS).

Local Abbreviation M := (Js.M Event FS).

Lemma printEntry_run (recur : string -> string -> M unit) entries dir prefix
  i (fs : FS) :
  let name := nth i entries "" in
  let isLast := Nat.eqb i (length entries - 1) in
  printEntry pfs recur entries dir prefix i fs =
    match pfs_stat pfs fs (child_path dir name) with
    | Ret st =>
        after [EvStat (child_path dir name);
               EvLog (prefix ++ connector isLast ++ name)]
          (if String.eqb (st_type st) "dir"
           then recur (child_path dir name) (prefix ++ indent isLast) fs
           else Done tt fs [])
    | Raise e => Threw e fs [EvStat (child_path dir name)]
    end.
Proof.
  intros name isLast. unfold printEntry. fold name. fold isLast.
  fold (child_path dir name). fold (connector isLast). fold (indent isLast).
  unfold stat, console_log, bind, emit, get, lift.
  cbv beta iota. unfold after at 2 3.
  destruct (pfs_stat pfs fs (child_path dir name)) as [st|e];
    [|reflexivity].
  cbn [ret after app].
  destruct (String.eqb (st_type st) "dir"); [|reflexivity].
  destruct (recur _ _ fs); reflexivity.
Qed.

Lemma printTree_run fuel dir prefix (fs : FS) :
  printTree pfs (S fuel) dir prefix fs =
    match pfs_readdir pfs fs dir with
    | Ret entries =>
        after [EvReaddir dir]
          (for_range (length entries) 0
             (printEntry pfs (printTree pfs fuel) entries dir prefix) fs)
    | Raise e => Threw e fs [EvReaddir dir]
    end.
Proof.
  cbn [printTree]. unfold readdir, bind, emit, get, lift.
  cbv beta iota. unfold after at 2.
  destruct (pfs_readdir pfs fs dir) as [entries|e]; [|reflexivity].
  cbn [ret after app].
  destruct (for_range _ _ _ fs); reflexivity.
Qed.

Lemma skipn_cons_nth (l : list string) : forall i name names,
  skipn i l = name :: names ->
  nth i l "" = name /\ skipn (S i) l = names.
Proof.
  induction l as [|x l IH]; intros i name names H.
  - destruct i; discriminate.
  - destruct i as [|i]; simpl in H.
    + injection H as <- <-. split; reflexivity.
    + apply IH in H. exact H.
Qed.

(** From a run to its rendering. *)
Lemma printTree_sound (fs : FS) fuel : forall dir prefix out,
  printTree pfs fuel dir prefix fs = Done tt fs out ->
  Rendered pfs fs (WalkDir dir prefix) out.
Proof.
  induction fuel as [|fuel IH]; intros dir prefix out H; [discriminate|].
  rewrite printTree_run in H.
  destruct (pfs_readdir pfs fs dir) as [entries|e] eqn:Hread;
    [|discriminate].
  assert (Hloop : forall names index out',
             skipn index entries = names ->
             for_range (length names) index
               (printEntry pfs (printTree pfs fuel) entries dir prefix) fs
             = Done tt fs out' ->
             Rendered pfs fs
               (WalkEntries dir prefix (length entries) index names) out').
  { induction names as [|name names IHn]; intros index out' Hskip Hrun.
    - simpl in Hrun. injection Hrun as <-. constructor.
    - cbn [length for_range] in Hrun. unfold bind in Hrun.
      destruct (skipn_cons_nth _ _ _ _ Hskip) as [Hnth Hrest].
      rewrite printEntry_run, Hnth in Hrun.
      destruct (pfs_stat pfs fs (child_path dir name)) as [st|e] eqn:Hstat;
        [|discriminate].
      destruct (String.eqb (st_type st) "dir") eqn:Hdir.
      + pose proof (printTree_observes pfs fuel (child_path dir name)
                      (prefix ++ indent (Nat.eqb index (length entries - 1)))
                      fs) as Hobs.
        destruct (printTree pfs fuel _ _ fs) as [[] fs' sub|e fs' sub|sub]
          eqn:Hsub; try discriminate.
        destruct Hobs as [-> _]. cbn [after] in Hrun.
        destruct (for_range (length names) (S index) _ fs)
          as [[] fs'' rest|e fs'' rest|rest] eqn:Hfor; try discriminate.
        cbn [after] in Hrun. injection Hrun as -> <-.
        cbn [app]. eapply Rendered_subdir; eauto.
      + cbn [after] in Hrun.
        destruct (for_range (length names) (S index) _ fs)
          as [[] fs'' rest|e fs'' rest|rest] eqn:Hfor; try discriminate.
        cbn [after] in Hrun. injection Hrun as -> <-.
        cbn [app]. eapply Rendered_leaf; eauto. }
  destruct (for_range (length entries) 0 _ fs)
    as [[] fs' rest|e fs' rest|rest] eqn:Hfor; try discriminate.
  cbn [after] in H. injection H as -> <-.
  econstructor; eauto.
Qed.

(** From a rendering to a run. *)
Lemma printTree_complete (fs : FS) w out :
  Rendered pfs fs w out -> runs_to pfs fs w out.
Proof.
  induction 1 as [dir prefix names out Hread _ IH
                 |dir prefix total index
                 |dir prefix total index name names st out Hstat Hdir _ IH
                 |dir prefix total index name names st sub out Hstat Hdir
                    _ IHsub _ IH].
  - destruct IH as [fuel IH]. exists (S fuel). intros fuel' Hle.
    destruct fuel' as [|fuel']; [lia|].
    rewrite printTree_run, Hread.
    rewrite (IH fuel' ltac:(lia) names eq_refl eq_refl). reflexivity.
  - exists 0. intros fuel' _ entries _ _. reflexivity.
  - destruct IH as [fuel IH]. exists fuel. intros fuel' Hle entries -> Hskip.
    destruct (skipn_cons_nth _ _ _ _ Hskip) as [Hnth Hrest].
    cbn [length for_range]. unfold bind.
    rewrite printEntry_run, Hnth, Hstat, Hdir. cbn [after].
    rewrite (IH fuel' Hle entries eq_refl Hrest). reflexivity.
  - destruct IHsub as [fuel1 IHsub]. destruct IH as [fuel2 IH].
    exists (Nat.max fuel1 fuel2). intros fuel' Hle entries -> Hskip.
    destruct (skipn_cons_nth _ _ _ _ Hskip) as [Hnth Hrest].
    cbn [length for_range]. unfold bind.
    rewrite printEntry_run, Hnth, Hstat, Hdir.
    rewrite (IHsub fuel' ltac:(lia)). cbn [after].
    rewrite (IH fuel' ltac:(lia) entries eq_refl Hrest). reflexivity.
Qed.

End PrintTree.

(** C9.  [printTree] completes on a subtree exactly when the subtree has a
    depth-first pre-order rendering, and what it emits is that rendering: at
    every directory one line per name, in the order in which [readdir] gave
    the names, and the rendering of each subdirectory directly after its own
    line.  The filesystem is left as it was. *)
Theorem printTree_preorder :
  forall (FS : Type) (pfs : Pfs FS) (fs : FS) (dir prefix : string)
         (out : list Event),
    (exists fuel, printTree pfs fuel dir prefix fs = Done tt fs out) <->
    Rendered pfs fs (WalkDir dir prefix) out.
Proof.
  intros FS pfs fs dir prefix out. split.
  - intros [fuel H]. eapply printTree_sound; eauto.
  - intros H. destruct (printTree_complete pfs fs _ _ H) as [fuel Hrun].
    exists (S fuel). apply Hrun. lia.
Qed.

Lemma printTree_preorder_witness :
  exists out,
    Rendered MemFS.pfs small_tree (WalkDir "/" "") out /\
    console_lines out
    = [ "├── mydb";
        "│   └── assets";
        "│       ├── a.png";
        "│       └── b.png";
        "└── notes.txt" ].
Proof.
  eexists. split.
  - apply (proj1 (printTree_preorder MemFS.node MemFS.pfs small_tree "/" ""
                    _)).
    exists 4. reflexivity.
  - reflexivity.
Defined.

(** *** The tree inspector ends on every store of the reference filesystem *)

Module MemFSTree.
Import MemFS.

Lemma split_slash_nonempty s : split_slash s <> [].
Proof.
  destruct s as [|c s]; simpl; [discriminate|].
  destruct (Ascii.eqb c "/"); [discriminate|].
  destruct (split_slash s); discriminate.
Qed.

Lemma split_slash_app a b :
  split_slash (a ++ String "/" b) = (split_slash a ++ split_slash b)%list.
Proof.
  induction a as [|c a IH]; simpl.
  - reflexivity.
  - destruct (Ascii.eqb c "/"); [now rewrite IH|].
    rewrite IH. pose proof (split_slash_nonempty a) as Hne.
    destruct (split_slash a); [contradiction | reflexivity].
Qed.

Lemma split_slash_plain s : has_slash s = false -> split_slash s = [s].
Proof.
  induction s as [|c s IH]; simpl; [reflexivity|].
  destruct (Ascii.eqb c "/"); [discriminate|]. simpl.
  intros H. now rewrite (IH H).
Qed.

Lemma segments_child dir name :
  valid_name name = true ->
  segments (child_path dir name) = (segments dir ++ [name])%list.
Proof.
  unfold valid_name. intros H. apply andb_prop in H as [Hne Hslash].
  apply negb_true_iff in Hslash.
  assert (Hname : segments name = [name]).
  { unfold segments. rewrite (split_slash_plain _ Hslash). simpl.
    now rewrite Hne. }
  unfold child_path. destruct (String.eqb_spec dir "/") as [->|_].
  - change ("/" ++ name) with ("" ++ String "/" name).
    unfold segments in *. rewrite split_slash_app, filter_app, Hname.
    reflexivity.
  - change (dir ++ "/" ++ name) with (dir ++ String "/" name).
    unfold segments in *. rewrite split_slash_app, filter_app, Hname.
    reflexivity.
Qed.

Lemma lookup_app p q n :
  lookup (p ++ q) n =
    match lookup p n with
    | Some m => lookup q m
    | None => None
    end.
Proof.
  revert n. induction p as [|seg p IH]; intros n; simpl; [reflexivity|].
  destruct n as [d|cs]; [reflexivity|].
  destruct (child seg cs); [apply IH | reflexivity].
Qed.

Lemma well_formed_children cs :
  well_formed (Dir cs) <->
  Forall (fun kc => valid_name (fst kc) = true /\ well_formed (snd kc)) cs.
Proof.
  induction cs as [|[k c] cs IH].
  - split; constructor.
  - split.
    + intros (Hk & Hc & Hcs). constructor; [split; assumption|].
      apply IH. exact Hcs.
    + intros H. inversion H as [|? ? [Hk Hc] Hcs]; subst.
      split; [exact Hk|]. split; [exact Hc|]. apply IH. exact Hcs.
Qed.

Lemma height_children cs c k :
  In (k, c) cs -> height c < height (Dir cs).
Proof.
  induction cs as [|[k0 c0] cs IH]; intros Hin; [contradiction|].
  destruct Hin as [Heq|Hin].
  - injection Heq as -> ->. simpl. lia.
  - specialize (IH Hin). simpl in *. lia.
Qed.

Lemma child_In k cs c : child k cs = Some c -> In (k, c) cs.
Proof.
  induction cs as [|[k0 c0] cs IH]; simpl; [discriminate|].
  destruct (String.eqb_spec k0 k) as [->|_].
  - intros H. injection H as ->. now left.
  - intros H. right. auto.
Qed.

Lemma child_of_name k cs :
  In k (map fst cs) -> exists c, child k cs = Some c.
Proof.
  induction cs as [|[k0 c0] cs IH]; simpl; [contradiction|].
  destruct (String.eqb_spec k0 k) as [->|Hne]; [eauto|].
  intros [H|H]; [contradiction | auto].
Qed.

(** Every directory of a well-formed store has a rendering. *)
Lemma rendering_exists root h : forall dir prefix cs,
  height (Dir cs) <= h ->
  well_formed (Dir cs) ->
  lookup (segments dir) root = Some (Dir cs) ->
  exists out, Rendered pfs root (WalkDir dir prefix) out.
Proof.
  induction h as [|h IH]; intros dir prefix cs Hh Hwf Hdir;
    [simpl in Hh; lia|].
  assert (Hentries : forall names total index,
             incl names (map fst cs) ->
             exists out,
               Rendered pfs root (WalkEntries dir prefix total index names)
                 out).
  { induction names as [|name names IHn]; intros total index Hincl.
    - exists []. constructor.
    - destruct (IHn total (S index)) as [out Hout].
      { intros x Hx. apply Hincl. now right. }
      assert (Hin : In name (map fst cs)) by (apply Hincl; now left).
      destruct (child_of_name _ _ Hin) as [c Hc].
      pose proof (child_In _ _ _ Hc) as Hkc.
      pose proof (proj1 (well_formed_children cs) Hwf) as Hall.
      rewrite Forall_forall in Hall. destruct (Hall _ Hkc) as [Hvalid Hwfc].
      simpl in Hvalid, Hwfc.
      assert (Hlook : lookup (segments (child_path dir name)) root = Some c).
      { rewrite (segments_child _ _ Hvalid), lookup_app, Hdir. simpl.
        now rewrite Hc. }
      destruct c as [d|cs'].
      + exists (EvStat (child_path dir name)
                :: EvLog (prefix ++ connector (Nat.eqb index (total - 1))
                            ++ name) :: out).
        eapply Rendered_leaf with (st := mkStats "file"); eauto.
        simpl. unfold stat. now rewrite Hlook.
      + destruct (IH (child_path dir name)
                    (prefix ++ indent (Nat.eqb index (total - 1))) cs')
          as [sub Hsub]; auto.
        { pose proof (height_children _ _ _ Hkc). lia. }
        exists (EvStat (child_path dir name)
                :: EvLog (prefix ++ connector (Nat.eqb index (total - 1))
                            ++ name) :: sub ++ out)%list.
        eapply Rendered_subdir with (st := mkStats "dir"); eauto.
        simpl. unfold stat. now rewrite Hlook. }
  destruct (Hentries (map fst cs) (length (map fst cs)) 0) as [out Hout].
  { intros x Hx. exact Hx. }
  exists (EvReaddir dir :: out). econstructor; [|exact Hout].
  simpl. unfold readdir. now rewrite Hdir.
Qed.

Lemma well_formed_lookup p : forall n m,
  well_formed n -> lookup p n = Some m -> well_formed m.
Proof.
  induction p as [|seg p IH]; intros n m Hwf Hp.
  - simpl in Hp. now injection Hp as <-.
  - destruct n as [d|cs]; [discriminate|]. simpl in Hp.
    destruct (child seg cs) as [c|] eqn:Hc; [|discriminate].
    apply (IH c m); [|exact Hp].
    pose proof (proj1 (well_formed_children cs) Hwf) as Hall.
    rewrite Forall_forall in Hall.
    exact (proj2 (Hall _ (child_In _ _ _ Hc))).
Qed.

(** X19.  On a well-formed store of the reference filesystem, [printTree]
    ends at every directory, with the rendering of that directory. *)
Lemma printTree_ends_on_store root dir prefix cs :
  well_formed root ->
  lookup (segments dir) root = Some (Dir cs) ->
  exists fuel out,
    printTree pfs fuel dir prefix root = Done tt root out /\
    Rendered pfs root (WalkDir dir prefix) out.
Proof.
  intros Hwf Hdir.
  destruct (rendering_exists root (height (Dir cs)) dir prefix cs
              (le_n _) (well_formed_lookup _ _ _ Hwf Hdir) Hdir)
    as [out Hout].
  destruct (printTree_complete pfs root _ _ Hout) as [fuel Hrun].
  exists (S fuel), out. split; [apply Hrun; lia | exact Hout].
Qed.

End MemFSTree.

(** * Further properties *)

(** ** The client *)

Lemma concat_cons_char sep c x xs :
  String.concat sep (String c x :: xs) = String c (String.concat sep (x :: xs)).
Proof. destruct xs; reflexivity. Qed.

(** Joining the pieces of a split gives the string back. *)
Lemma concat_split_slash s : String.concat "/" (split_slash s) = s.
Proof.
  induction s as [|c s IH]; [reflexivity|].
  cbn [split_slash]. destruct (Ascii.eqb_spec c "/") as [->|Hc].
  - pose proof (MemFSTree.split_slash_nonempty s) as Hne.
    destruct (split_slash s) as [|seg segs] eqn:E; [contradiction|].
    change (String.concat "/" ("" :: seg :: segs))
      with ("" ++ "/" ++ String.concat "/" (seg :: segs)).
    rewrite IH. reflexivity.
  - pose proof (MemFSTree.split_slash_nonempty s) as Hne.
    destruct (split_slash s) as [|seg segs] eqn:E; [contradiction|].
    rewrite concat_cons_char, IH. reflexivity.
Qed.

(** Splitting a join of slash-free pieces gives the pieces back. *)
Lemma split_slash_concat l :
  l <> [] ->
  Forall (fun seg => has_slash seg = false) l ->
  split_slash (String.concat "/" l) = l.
Proof.
  intros Hne Hall. induction Hall as [|x l Hx Hall IH]; [contradiction|].
  destruct l as [|y l].
  - simpl. now apply MemFSTree.split_slash_plain.
  - change (String.concat "/" (x :: y :: l))
      with (x ++ String "/" (String.concat "/" (y :: l))).
    rewrite MemFSTree.split_slash_app, (MemFSTree.split_slash_plain _ Hx).
    rewrite IH by discriminate. reflexivity.
Qed.

Lemma strip_leading_slashes_slashes n p :
  strip_leading_slashes (slashes n ++ p) = strip_leading_slashes p.
Proof. induction n as [|n IH]; [reflexivity | exact IH]. Qed.

(** X1.  [encodePath] ignores any number of leading slashes, and a path that
    consists of slashes only (the empty path included) encodes to the empty
    string, whatever [encodeURIComponent] does. *)
Theorem encodePath_leading_slashes :
  forall (net : Net) (n : nat) (p : string),
    encodePath net (slashes n ++ p) = encodePath net p /\
    encodePath net (slashes n) = "".
Proof.
  intros net n p. unfold encodePath. split.
  - now rewrite strip_leading_slashes_slashes.
  - replace (slashes n) with (slashes n ++ "").
    + rewrite strip_leading_slashes_slashes. reflexivity.
    + induction n as [|n IH]; [reflexivity|]. simpl. now rewrite IH.
Qed.

(** X2.  [encodePath] keeps the slashes and encodes each segment on its own:
    when [encodeURIComponent] never produces a slash, the segments of the
    encoded path are the encodings of the segments of the path without its
    leading slashes, one for one and in order. *)
Theorem encodePath_segmentwise :
  forall (net : Net) (p : string),
    (forall s, has_slash (encodeURIComponent net s) = false) ->
    strip_leading_slashes p <> "" ->
    split_slash (encodePath net p)
    = map (encodeURIComponent net) (split_slash (strip_leading_slashes p)).
Proof.
  intros net p Henc Hne. unfold encodePath.
  destruct (String.eqb_spec (strip_leading_slashes p) "") as [E|_];
    [contradiction|].
  apply split_slash_concat.
  - pose proof (MemFSTree.split_slash_nonempty (strip_leading_slashes p)).
    destruct (split_slash (strip_leading_slashes p)); [contradiction|].
    discriminate.
  - apply Forall_forall. intros seg Hin. apply in_map_iff in Hin.
    destruct Hin as (s & <- & _). apply Henc.
Qed.

Lemma unreserved_not_slash c : unreserved c = true -> Ascii.eqb c "/" = false.
Proof.
  destruct c as [[] [] [] [] [] [] [] []]; vm_compute; congruence.
Qed.

Lemma hex_digit_not_slash n : Ascii.eqb (hex_digit n) "/" = false.
Proof.
  unfold hex_digit. do 16 (destruct n as [|n]; [reflexivity|]).
  destruct n; reflexivity.
Qed.

Lemma percent_encode_no_slash s : has_slash (percent_encode s) = false.
Proof.
  induction s as [|c s IH]; [reflexivity|]. cbn [percent_encode].
  destruct (unreserved c) eqn:E; cbn [has_slash].
  - now rewrite (unreserved_not_slash _ E), IH.
  - now rewrite !hex_digit_not_slash, IH.
Qed.

Lemma encodePath_segmentwise_witness :
  split_slash (encodePath (server mydb_site) "//my graph/a&b.png")
  = map percent_encode ["my graph"; "a&b.png"].
Proof.
  apply (encodePath_segmentwise (server mydb_site) "//my graph/a&b.png").
  - exact percent_encode_no_slash.
  - discriminate.
Defined.

(** X3.  [encodePath] returns the path without its leading slashes, unchanged,
    when [encodeURIComponent] leaves each of its segments as it is. *)
Theorem encodePath_plain :
  forall (net : Net) (p : string),
    (forall seg, In seg (split_slash (strip_leading_slashes p)) ->
                 encodeURIComponent net seg = seg) ->
    encodePath net p = strip_leading_slashes p.
Proof.
  intros net p Hfix. unfold encodePath.
  destruct (String.eqb_spec (strip_leading_slashes p) "") as [E|_];
    [now rewrite E|].
  rewrite <- (concat_split_slash (strip_leading_slashes p)) at 2.
  f_equal. rewrite <- (map_id (split_slash (strip_leading_slashes p))) at 2.
  apply map_ext_in. exact Hfix.
Qed.

Lemma encodePath_plain_witness :
  encodePath (server mydb_site) "/assets/a.png" = "assets/a.png".
Proof.
  apply (encodePath_plain (server mydb_site) "/assets/a.png").
  intros seg [<-|[<-|[]]]; reflexivity.
Defined.

Section ClientErrors.
Context {FS : Type} (net : Net).
Variable names_of_json : Json net -> list string.

Lemma listDBs_run (fs : FS) :
  listDBs net names_of_json fs =
    match databases net names_of_json with
    | Ret ns => Done ns fs [EvFetch databases_request]
    | Raise e => Threw e fs [EvFetch databases_request]
    end.
Proof.
  unfold listDBs, databases, checked, do_fetch, ensureOk, databases_request,
    backend, bind, emit, lift, ret, throw. simpl.
  destruct (fetch net _) as [res|e]; simpl; [|reflexivity].
  destruct (res_ok res); simpl; [|reflexivity].
  destruct (res_json res); reflexivity.
Qed.

Lemma uploadDBZip_run dbName zip (fs : FS) :
  uploadDBZip net dbName zip fs =
    match checked net "uploadDBZip" (zip_request net dbName zip) with
    | Ret res =>
        match res_json res with
        | Ret j => Done j fs [EvFetch (zip_request net dbName zip)]
        | Raise e => Threw e fs [EvFetch (zip_request net dbName zip)]
        end
    | Raise e => Threw e fs [EvFetch (zip_request net dbName zip)]
    end.
Proof.
  unfold uploadDBZip, checked, do_fetch, ensureOk, zip_request,
    backend, bind, emit, lift, ret, throw. simpl.
  destruct (fetch net _) as [res|e]; simpl; [|reflexivity].
  destruct (res_ok res); simpl; [|reflexivity].
  destruct (res_json res); reflexivity.
Qed.

Lemma checked_not_ok label r res :
  fetch net r = Ret res -> res_ok res = false ->
  checked net label r = Raise (http_error label res).
Proof. unfold checked. intros -> ->. reflexivity. Qed.

End ClientErrors.

(** X4.  Each of the four client operations, when the server answers its
    request with a response that is not ok, throws the error that carries the
    label of the operation, the status and the status text; it has sent that
    one request, has not read the body, and leaves the state as it was. *)
Theorem client_rejects_response_not_ok :
  forall (FS : Type) (net : Net) (names_of_json : Json net -> list string)
         (fs : FS) (res : Response (Json net)),
    res_ok res = false ->
    (fetch net databases_request = Ret res ->
     listDBs net names_of_json fs
     = Threw (http_error "listDBs" res) fs [EvFetch databases_request]) /\
    (forall db path,
        fetch net (listing_request net db path) = Ret res ->
        listDBDir net db path fs
        = Threw (http_error "listDBDir" res) fs
            [EvFetch (listing_request net db path)]) /\
    (forall db path,
        fetch net (bytes_request net db path) = Ret res ->
        fetchDBFileBytes net db path fs
        = Threw (http_error "fetchDBFileBytes" res) fs
            [EvFetch (bytes_request net db path)]) /\
    (forall dbName zip,
        fetch net (zip_request net dbName zip) = Ret res ->
        uploadDBZip net dbName zip fs
        = Threw (http_error "uploadDBZip" res) fs
            [EvFetch (zip_request net dbName zip)]).
Proof.
  intros FS net names_of_json fs res Hok. repeat apply conj.
  - intros H. rewrite listDBs_run. unfold databases.
    now rewrite (checked_not_ok net _ _ _ H Hok).
  - intros db path H. rewrite listDBDir_run. unfold listed.
    now rewrite (checked_not_ok net _ _ _ H Hok).
  - intros db path H. rewrite fetchDBFileBytes_run. unfold fetched.
    now rewrite (checked_not_ok net _ _ _ H Hok).
  - intros dbName zip H. rewrite uploadDBZip_run.
    now rewrite (checked_not_ok net _ _ _ H Hok).
Qed.

Lemma client_rejects_response_not_ok_witness :
  listDBs failing (fun _ => []) tt
  = Threw (JsError "listDBs failed: 500 Internal Server Error") tt
      [EvFetch databases_request] /\
  fetchDBFileBytes failing "my db" "/assets/a.png" tt
  = Threw (JsError "fetchDBFileBytes failed: 500 Internal Server Error") tt
      [EvFetch (mkRequest GET "/estorage/my%20db/assets/a.png" None None)].
Proof.
  destruct (client_rejects_response_not_ok unit failing (fun _ => []) tt
              (mkResponse false 500 "Internal Server Error" (Ret tt) (Ret []))
              eq_refl) as (H1 & _ & H3 & _).
  split; [exact (H1 eq_refl) | exact (H3 "my db" "/assets/a.png" eq_refl)].
Defined.

Section GetNewRepos.
Context {FS : Type} (net : Net).
Variable names_of_json : Json net -> list string.

Lemma collectRepos_all repos : forall (arrs : list Repo) (fs : FS),
  Forall (fun r => fetched net (repo_name r) "db.sqlite"
                   = Ret (repo_bytes r)) repos ->
  collectRepos net (map repo_name repos) arrs fs
  = Done (arrs ++ repos)%list fs
      (map (fun r => EvFetch (sqlite_request net (repo_name r))) repos).
Proof.
  induction repos as [|[db bytes] repos IH]; intros arrs fs H.
  - simpl. now rewrite app_nil_r.
  - inversion H as [|r rs Hr Hrs]; subst. cbn [repo_name repo_bytes] in Hr.
    cbn [map collectRepos repo_name]. unfold bind.
    rewrite fetchDBFileBytes_run, Hr. cbv beta iota.
    rewrite (IH _ fs Hrs), <- app_assoc. reflexivity.
Qed.

Lemma collectRepos_first_failure before db rest e :
  forall (arrs : list Repo) (fs : FS),
  Forall (fun r => fetched net (repo_name r) "db.sqlite"
                   = Ret (repo_bytes r)) before ->
  fetched net db "db.sqlite" = Raise e ->
  collectRepos net (map repo_name before ++ db :: rest) arrs fs
  = Threw e fs
      (map (fun d => EvFetch (sqlite_request net d))
         (map repo_name before ++ [db])).
Proof.
  induction before as [|[b bytes] before IH]; intros arrs fs H Hdb.
  - cbn [map app collectRepos]. unfold bind.
    rewrite fetchDBFileBytes_run, Hdb. reflexivity.
  - inversion H as [|r rs Hr Hrs]; subst. cbn [repo_name repo_bytes] in Hr.
    cbn [map app collectRepos repo_name]. unfold bind.
    rewrite fetchDBFileBytes_run, Hr. cbv beta iota.
    rewrite (IH _ fs Hrs Hdb). reflexivity.
Qed.

End GetNewRepos.

(** X5.  [getNewRepos] asks for the list of databases, then for the content
    of each database in the order of the list, and it has no recovery.  When
    the list cannot be had it throws the error of that request, having sent
    no other.  When every fetch succeeds it returns the databases one for
    one in the order of the list, each with the bytes fetched for it, having
    sent one request for each.  When the fetch of a database fails it throws
    the error of that fetch at once: it has asked for the databases up to
    that one and for none after it.  (The names are the strings of bytes of
    this embedding, which [encodeURIComponent] accepts.) *)
Theorem getNewRepos_order_and_abort :
  forall (FS : Type) (net : Net) (names_of_json : Json net -> list string)
         (fs : FS),
    (forall e,
        databases net names_of_json = Raise e ->
        getNewRepos net names_of_json fs
        = Threw e fs [EvFetch databases_request]) /\
    (forall repos,
        databases net names_of_json = Ret (map repo_name repos) ->
        Forall (fun r => fetched net (repo_name r) "db.sqlite"
                         = Ret (repo_bytes r)) repos ->
        getNewRepos net names_of_json fs
        = Done repos fs
            (EvFetch databases_request
             :: map (fun r => EvFetch (sqlite_request net (repo_name r)))
                  repos)) /\
    (forall before db rest e,
        databases net names_of_json
        = Ret (map repo_name before ++ db :: rest)%list ->
        Forall (fun r => fetched net (repo_name r) "db.sqlite"
                         = Ret (repo_bytes r)) before ->
        fetched net db "db.sqlite" = Raise e ->
        getNewRepos net names_of_json fs
        = Threw e fs
            (EvFetch databases_request
             :: map (fun d => EvFetch (sqlite_request net d))
                  (map repo_name before ++ [db]))).
Proof.
  intros FS net names_of_json fs. repeat apply conj.
  - intros e H. unfold getNewRepos, bind. rewrite listDBs_run, H.
    reflexivity.
  - intros repos H Hall. unfold getNewRepos, bind.
    rewrite listDBs_run, H. cbv beta iota.
    rewrite (collectRepos_all net repos [] fs Hall). reflexivity.
  - intros before db rest e H Hall Hdb. unfold getNewRepos, bind.
    rewrite listDBs_run, H. cbv beta iota.
    rewrite (collectRepos_first_failure net before db rest e [] fs Hall Hdb).
    reflexivity.
Qed.

Lemma getNewRepos_order_and_abort_witness :
  getNewRepos two_dbs two_dbs_names tt
  = Done [mkRepo "g1" a_png; mkRepo "g2" b_png] tt
      [EvFetch databases_request;
       EvFetch (sqlite_request two_dbs "g1");
       EvFetch (sqlite_request two_dbs "g2")] /\
  getNewRepos stale_list two_dbs_names tt
  = Threw (JsError "fetchDBFileBytes failed: 404 Not Found") tt
      [EvFetch databases_request;
       EvFetch (sqlite_request stale_list "g1");
       EvFetch (sqlite_request stale_list "g3")].
Proof.
  split.
  - exact (proj1 (proj2 (getNewRepos_order_and_abort unit two_dbs
                           two_dbs_names tt))
             [mkRepo "g1" a_png; mkRepo "g2" b_png] eq_refl
             ltac:(repeat constructor)).
  - exact (proj2 (proj2 (getNewRepos_order_and_abort unit stale_list
                           two_dbs_names tt))
             [mkRepo "g1" a_png] "g3" ["g2"]
             (JsError "fetchDBFileBytes failed: 404 Not Found") eq_refl
             ltac:(repeat constructor) eq_refl).
Defined.

(** ** The mirror, database by database *)

Section NeverThrows.
Context {E St : Type}.

Lemma try_catch_caught {A} (m : Js.M E St A) (h : Exn -> Js.M E St A) s :
  (forall e s', match h e s' with Threw _ _ _ => False | _ => True end) ->
  match try_catch m h s with Threw _ _ _ => False | _ => True end.
Proof.
  intros Hh. unfold try_catch.
  destruct (m s) as [a s1 t1|e s1 t1|t1]; auto.
  specialize (Hh e s1). destruct (h e s1); simpl; auto.
Qed.

Lemma for_of_caught {A} (body : A -> Js.M E St unit) l :
  (forall x s, match body x s with Threw _ _ _ => False | _ => True end) ->
  forall s, match for_of l body s with Threw _ _ _ => False | _ => True end.
Proof.
  intros Hbody. induction l as [|x l IH]; intros s; simpl; auto.
  unfold bind. specialize (Hbody x s).
  destruct (body x s) as [[] s1 t1|e s1 t1|t1]; auto.
  specialize (IH s1). destruct (for_of l body s1); simpl; auto.
Qed.

End NeverThrows.

(** X6.  [downloadAssets] never rejects: whatever the server and the
    filesystem do, every exception raised during the sync of a database is
    caught inside the loop. *)
Theorem downloadAssets_never_throws :
  forall (FS : Type) (pfs : Pfs FS) (net : Net) (fuel : nat)
         (dbs : list DbObj) (fs : FS),
    match downloadAssets pfs net fuel dbs fs with
    | Threw _ _ _ => False
    | _ => True
    end.
Proof.
  intros FS pfs net fuel dbs fs. unfold downloadAssets.
  apply for_of_caught. intros dbObj s. unfold syncDb.
  apply try_catch_caught. intros e s'. exact I.
Qed.

(** X7.  When the listing of the assets of one database fails, the sync of
    that database ends there: the failure is logged with the exception, the
    store is not touched for it, and the databases after it are synced just
    as they would be without it. *)
Theorem listing_failure_isolated :
  forall (FS : Type) (pfs : Pfs FS) (net : Net) (fuel : nat)
         (before : list DbObj) (db : string) (rest : list DbObj)
         (fs fs1 : FS) (tr1 : list Event) (e : Exn),
    downloadAssets pfs net fuel before fs = Done tt fs1 tr1 ->
    listed net db "assets" = Raise e ->
    downloadAssets pfs net fuel (before ++ mkDb db :: rest) fs
    = after (tr1 ++ EvFetch (listing_request net db "assets")
                    :: find_failed db e)
        (downloadAssets pfs net fuel rest fs1) /\
    downloadAssets pfs net fuel (before ++ rest) fs
    = after tr1 (downloadAssets pfs net fuel rest fs1).
Proof.
  intros FS pfs net fuel before db rest fs fs1 tr1 e Hbefore Hlist.
  unfold downloadAssets in *. split.
  - rewrite (for_of_app _ _ _ _ _ _ Hbefore). cbn [for_of]. unfold bind.
    cbn [db_name]. rewrite (syncDb_listing_fails pfs net fuel db fs1 e Hlist).
    rewrite after_after. reflexivity.
  - now rewrite (for_of_app _ _ _ _ _ _ Hbefore).
Qed.

Lemma listing_failure_isolated_witness :
  downloadAssets MemFS.pfs (server mydb_site) 5
    ([] ++ mkDb "gone" :: [mkDb "mydb"]) assets_dir_ready
  = after ([] ++ EvFetch (listing_request (server mydb_site) "gone" "assets")
                 :: find_failed "gone"
                      (JsError "listDBDir failed: 404 Not Found"))
      (downloadAssets MemFS.pfs (server mydb_site) 5 [mkDb "mydb"]
         assets_dir_ready).
Proof.
  exact (proj1 (listing_failure_isolated MemFS.node MemFS.pfs
                  (server mydb_site) 5 [] "gone" [mkDb "mydb"]
                  assets_dir_ready assets_dir_ready []
                  (JsError "listDBDir failed: 404 Not Found")
                  eq_refl eq_refl)).
Defined.

Section Permitted.
Context {FS : Type} (pfs : Pfs FS) (net : Net).
Variable db : string.





End Permitted.


(** X9.  The asset loop reads nothing of an entry but its name: two listings
    with the same names in the same order are synced in the same way,
    whatever the types and the hashes of their entries. *)
Theorem asset_loop_reads_names_only :
  forall (FS : Type) (pfs : Pfs FS) (net : Net) (db : string)
         (es1 es2 : list DirEntry) (fs : FS),
    map entry_name es1 = map entry_name es2 ->
    for_of es1 (syncAsset pfs net db) fs
    = for_of es2 (syncAsset pfs net db) fs.
Proof.
  intros FS pfs net db es1. induction es1 as [|e1 es1 IH];
    intros [|e2 es2] fs H; try discriminate; [reflexivity|].
  simpl in H. injection H as Hname Hrest. cbn [for_of]. unfold bind.
  assert (Hsame : syncAsset pfs net db e1 fs = syncAsset pfs net db e2 fs)
    by (unfold syncAsset; now rewrite Hname).
  rewrite Hsame. destruct (syncAsset pfs net db e2 fs); try reflexivity.
  now rewrite (IH es2 s Hrest).
Qed.

Lemma asset_loop_reads_names_only_witness :
  for_of [EFile "a.png" "abc"; EFile "b.png" "def"]
    (syncAsset MemFS.pfs (server two_assets_site) "mydb") assets_dir_ready
  = for_of [EDir "a.png"; EFile "b.png" "0000"]
      (syncAsset MemFS.pfs (server two_assets_site) "mydb") assets_dir_ready.
Proof.
  exact (asset_loop_reads_names_only MemFS.node MemFS.pfs
           (server two_assets_site) "mydb"
           [EFile "a.png" "abc"; EFile "b.png" "def"]
           [EDir "a.png"; EFile "b.png" "0000"] assets_dir_ready eq_refl).
Defined.

Section Mirrored.
Context {FS : Type} (pfs : Pfs FS) (net : Net).

Lemma asset_loop_mirrored db entries (fs : FS) :
  (forall e, In e entries ->
     present_as_file pfs fs (assetPath db (entry_name e)) = true) ->
  for_of entries (syncAsset pfs net db) fs
  = Done tt fs (map (fun e => EvStat (assetPath db (entry_name e))) entries).
Proof.
  induction entries as [|e entries IH]; intros Hall; [reflexivity|].
  cbn [for_of map]. unfold bind.
  rewrite syncAsset_run, (Hall e (or_introl eq_refl)).
  rewrite IH by (intros x Hx; apply Hall; now right). reflexivity.
Qed.

End Mirrored.

(** X10.  On a database that is fully mirrored, where [/${db}] is a directory
    and every listed asset is a local file, a sync sends the listing request
    and nothing else, makes no directory, writes no file, and leaves the
    store as it was. *)
Theorem sync_of_mirrored_database_is_quiet :
  forall (FS : Type) (pfs : Pfs FS) (net : Net) (fuel : nat) (db : string)
         (fs : FS) (entries : list DirEntry),
    listed net db "assets" = Ret entries ->
    present_as_dir pfs fs (dbPath db) = true ->
    (forall e, In e entries ->
       present_as_file pfs fs (assetPath db (entry_name e)) = true) ->
    exists tail,
      events (syncDb pfs net fuel db fs)
      = EvFetch (listing_request net db "assets") :: tail /\
      Forall quiet tail /\
      (forall fs', final (syncDb pfs net fuel db fs) = Some fs' -> fs' = fs).
Proof.
  intros FS pfs net fuel db fs entries Hlist Hdir Hall.
  assert (Hens : ensureDbDir pfs db fs = Done tt fs [EvStat (dbPath db)])
    by (now rewrite ensureDbDir_run, Hdir).
  pose proof (asset_loop_mirrored pfs net db entries fs Hall) as Hloop.
  destruct (syncDb_run pfs net fuel db fs fs fs entries _ _ Hlist Hens Hloop)
    as (rest & Hrest & Hrun).
  assert (Hq1 : Forall quiet
                  (map (fun e => EvStat (assetPath db (entry_name e)))
                     entries))
    by (apply Forall_forall; intros ev Hev; apply in_map_iff in Hev;
        destruct Hev as (x & <- & _); exact I).
  assert (Hq2 : Forall quiet rest).
  { eapply Forall_impl; [|exact Hrest]. intros [] H; simpl in *; auto. }
  destruct (syncDb pfs net fuel db fs) as [[] fs3 tr|ex fs3 tr|tr];
    [|contradiction|]; simpl.
  - destruct Hrun as [-> [->|[ex ->]]]; eexists; split; try reflexivity;
      (split; [|intros fs' H; now injection H as <-]);
      constructor; simpl; auto; repeat (apply Forall_app; split); auto.
    unfold find_failed. repeat constructor.
  - subst tr. eexists. split; [reflexivity|]. split; [|discriminate].
    constructor; simpl; auto. repeat (apply Forall_app; split); auto.
Qed.

Lemma sync_of_mirrored_database_is_quiet_witness :
  exists tail,
    events (syncDb MemFS.pfs (server mydb_site) 5 "mydb" a_png_mirrored)
    = EvFetch (listing_request (server mydb_site) "mydb" "assets") :: tail /\
    Forall quiet tail /\
    (forall fs',
        final (syncDb MemFS.pfs (server mydb_site) 5 "mydb" a_png_mirrored)
        = Some fs' -> fs' = a_png_mirrored).
Proof.
  apply (sync_of_mirrored_database_is_quiet MemFS.node MemFS.pfs
           (server mydb_site) 5 "mydb" a_png_mirrored [EFile "a.png" "abc"]
           eq_refl eq_refl).
  intros e [<-|[]]. reflexivity.
Defined.

(** X11.  The tree dump runs inside the [try] of the database: when it throws
    after the asset loop, the sync does not reject; it logs ["Failed to find
    asset dir for ${db}"] and the exception, and what the loop wrote to the
    store stays. *)
Theorem tree_dump_failure_is_caught :
  forall (FS : Type) (pfs : Pfs FS) (net : Net) (fuel : nat) (db : string)
         (fs fs1 fs2 : FS) (entries : list DirEntry)
         (tr1 tr2 tr3 : list Event) (e : Exn),
    listed net db "assets" = Ret entries ->
    ensureDbDir pfs db fs = Done tt fs1 tr1 ->
    for_of entries (syncAsset pfs net db) fs1 = Done tt fs2 tr2 ->
    printTree pfs fuel "/" "" fs2 = Threw e fs2 tr3 ->
    syncDb pfs net fuel db fs
    = Done tt fs2
        (EvFetch (listing_request net db "assets")
         :: tr1 ++ tr2 ++ tr3 ++ find_failed db e)%list.
Proof.
  intros FS pfs net fuel db fs fs1 fs2 entries tr1 tr2 tr3 e
    Hlist Hens Hloop Htree.
  unfold syncDb, try_catch.
  unfold bind at 1. rewrite listDBDir_run, Hlist. cbv beta iota.
  unfold bind at 1. rewrite Hens. cbv beta iota.
  unfold bind at 1. rewrite Hloop. cbv beta iota.
  rewrite Htree. simpl. unfold find_failed.
  rewrite <- !app_assoc. reflexivity.
Qed.

Lemma tree_dump_failure_is_caught_witness :
  syncDb unavailable (server mydb_site) 5 "mydb" tt
  = Done tt tt
      (EvFetch (listing_request (server mydb_site) "mydb" "assets")
       :: [EvStat "/mydb"; EvMkdir "/mydb"; mkdir_failed "mydb"]
       ++ [EvStat "/mydb/assets/a.png";
           EvFetch (asset_request (server mydb_site) "mydb" "a.png");
           EvWriteFile "/mydb/assets/a.png" a_png;
           write_failed "mydb" "a.png"]
       ++ [EvReaddir "/"] ++ find_failed "mydb" EIO)%list.
Proof.
  exact (tree_dump_failure_is_caught unit unavailable (server mydb_site) 5
           "mydb" tt tt tt [EFile "a.png" "abc"] _ _ _ EIO
           eq_refl eq_refl eq_refl eq_refl).
Defined.

(** ** The tree inspector, further *)

(** X12.  [printTree] only looks: whether it completes, throws or never ends,
    it leaves the store as it was, and all it does is [readdir], [stat] and
    [console.log]. *)
Theorem printTree_only_observes :
  forall (FS : Type) (pfs : Pfs FS) (fuel : nat) (dir prefix : string)
         (fs : FS),
    match printTree pfs fuel dir prefix fs with
    | Done _ fs' tr => fs' = fs /\ Forall read_or_log tr
    | Threw _ fs' tr => fs' = fs /\ Forall read_or_log tr
    | Diverged tr => Forall read_or_log tr
    end.
Proof.
  intros FS pfs fuel dir prefix fs.
  exact (printTree_observes pfs fuel dir prefix fs).
Qed.

Lemma printTree_ends_on_store_witness :
  exists fuel out,
    printTree MemFS.pfs fuel "/mydb" "" small_tree = Done tt small_tree out /\
    Rendered MemFS.pfs small_tree (WalkDir "/mydb" "") out.
Proof.
  apply (MemFSTree.printTree_ends_on_store small_tree "/mydb" ""
           [("assets",
             MemFS.Dir [("a.png", MemFS.File a_png);
                        ("b.png", MemFS.File b_png)])]).
  - simpl. tauto.
  - reflexivity.
Defined.

(** ** The kill-switch, further *)

Section EpochFurther.
Variable href_ok : string -> bool.

Lemma history_calls_keep_queue acts : forall q,
  forallb is_history_call acts = true ->
  queue_after_all acts q = q.
Proof.
  unfold queue_after_all.
  induction acts as [|a acts IH]; intros q H; [reflexivity|].
  simpl in H. apply andb_prop in H as [Ha H].
  cbn [fold_left]. rewrite <- (IH q H) at 2.
  destruct a; try discriminate; reflexivity.
Qed.

Lemma history_calls_allowed acts :
  forallb is_history_call acts = true ->
  forallb (fun a => negb (is_restore a)) acts = true.
Proof.
  induction acts as [|a acts IH]; [reflexivity|]. simpl.
  intros H. apply andb_prop in H as [Ha H]. rewrite (IH H).
  destruct a; try discriminate; reflexivity.
Qed.

Lemma cycle_run stack steps w :
  1 <= stack ->
  length (queued w) < steps ->
  builtin_operations w = true ->
  guard_enabled w = false ->
  cycle href_ok stack steps w
  = Done tt (after_epoch w (queue w))
      (install_handlers w
       ++ remove_handlers w
       ++ map (EvListenerCall (addEventListener w)) (queued w)).
Proof.
  intros Hs Hsteps Hb Hoff. unfold cycle, bind.
  rewrite (disableSpaRouting_opens href_ok stack w Hs Hb Hoff).
  rewrite restoreSpaRouting_closes by assumption.
  reflexivity.
Qed.

(** A call that the patched [addEventListener] hands on to itself never
    returns: the engine ends it with [RangeError]. *)
Lemma invoke_overflow (w : Window) s sw b :
  routingKillSwitch w = Some s ->
  blockedEvents s = Some b ->
  saved_window s = Some sw ->
  saved_addEventListener sw = KsAddEventListener ->
  forall stack args,
    has_type b (arg0 args) = None ->
    invoke href_ok stack KsAddEventListener args w = Threw RangeError w [].
Proof.
  intros Hs Hb Hsw Hadd.
  induction stack as [|stack IH]; intros args Hty; [reflexivity|].
  cbn [invoke]. unfold ks_addEventListener, the_saved, bind at 1.
  unfold bind at 1. cbn [get after]. rewrite Hs. cbn [defined ret after app].
  unfold bind at 1. rewrite Hb. cbn [defined ret after app].
  rewrite Hty. unfold bind. rewrite Hsw. cbn [defined ret after app].
  rewrite Hadd, IH by exact Hty. reflexivity.
Qed.

(** The replay loop over an array onto which every call pushes does not
    end. *)
Lemma replay_diverges stack h a r la lr en sh sr sla slr kh id :
  1 <= stack ->
  forall steps l seen i,
    forallb guarded l = true ->
    i < length l ->
    replay href_ok stack steps id seen i
      (mkWindow h a r la lr
         (Some (mkSaved en sh
                  (Some (mkSavedWindow KsAddEventListener sr sla slr))
                  (Some (mkQueue id l)) (Some blocked_set) kh)))
    = Diverged [].
Proof.
  intros Hs. destruct stack as [|n]; [lia|].
  induction steps as [|steps IH]; intros l seen i Hl Hi; [reflexivity|].
  cbn [replay]. unfold the_saved, bind at 1. unfold bind at 1.
  cbn [get after routingKillSwitch defined ret app listeners queue_id
       queue_items].
  rewrite Nat.eqb_refl.
  destruct (nth_error l i) as [x|] eqn:Hx;
    [|apply nth_error_None in Hx; lia].
  assert (Hg : guarded x = true).
  { apply nth_error_In in Hx. rewrite forallb_forall in Hl. now apply Hl. }
  unfold guarded in Hg.
  cbn [saved_window]. unfold bind at 1. cbn [defined ret after app].
  unfold bind at 1. cbn [saved_addEventListener invoke].
  unfold ks_addEventListener, the_saved, update_saved, bind.
  cbn -[set_has replay]. rewrite Hg. cbn -[set_has replay].
  unfold set_routingKillSwitch, set_listeners. cbn -[set_has replay].
  rewrite IH; [reflexivity| |rewrite length_app; simpl; lia].
  rewrite forallb_app, Hl. cbn [forallb]. unfold guarded. cbn [reg_type].
  now rewrite Hg.
Qed.

End EpochFurther.

(** X13.  Inside an epoch opened from a window whose operations are not
    closures of the kill-switch, [removeEventListener] for [popstate] or
    [hashchange] never reaches the original operation: it drops from the
    queue every registration of the same type and listener, whatever its
    options, and keeps the others in order, so that [restoreSpaRouting] does
    not replay what was removed.  For any other event type the call goes to
    the original [removeEventListener] with the same arguments and the queue
    is left alone. *)
Theorem guard_removal_in_epoch :
  forall (href_ok : string -> bool) (stack steps : nat) (w : Window)
         (acts : list Action) (r : Registration),
    2 <= stack ->
    length (queued w) + length acts < steps ->
    builtin_operations w = true ->
    guard_enabled w = false ->
    forallb (fun a => negb (is_restore a)) acts = true ->
    exists w1 tr1 w2 w3,
      perform_all href_ok stack steps (CallDisableSpaRouting :: acts) w
      = Done tt w1 tr1 /\
      perform href_ok stack steps (CallRemoveEventListener r) w1
      = Done tt w2
          (if guarded r then []
           else [EvListenerCall (removeEventListener w) r]) /\
      queued w2
      = (if guarded r
         then filter (fun x => negb (same_registration r x)) (queued w1)
         else queued w1) /\
      (guarded r = true ->
       Forall (fun x => same_registration r x = false) (queued w2)) /\
      restoreSpaRouting href_ok stack steps w2
      = Done tt w3
          (remove_handlers w
           ++ map (EvListenerCall (addEventListener w)) (queued w2)).
Proof.
  intros href_ok stack steps w acts r Hs Hsteps Hb Hoff Hacts.
  set (q := queue_after_all acts (queue w)).
  exists (in_epoch w q),
    (install_handlers w ++ flat_map (effects_in_epoch href_ok w) acts)%list,
    (in_epoch w (queue_after (CallRemoveEventListener r) q)),
    (after_epoch w (queue_after (CallRemoveEventListener r) q)).
  repeat apply conj.
  - now apply enter_epoch.
  - now rewrite perform_in_epoch.
  - unfold queued, queue, saved_of.
    cbn [in_epoch routingKillSwitch saved_in_epoch listeners queue_after].
    destruct (guarded r); reflexivity.
  - intros Hg. unfold queued, queue, saved_of.
    cbn [in_epoch routingKillSwitch saved_in_epoch listeners queue_after].
    rewrite Hg. cbn [queue_items].
    apply Forall_forall. intros x Hx. apply filter_In in Hx as [_ Hx].
    now apply negb_true_iff in Hx.
  - apply restoreSpaRouting_closes; try (assumption || lia).
    pose proof (queue_after_all_length acts (queue w)).
    assert (length (queue_items (queue_after (CallRemoveEventListener r) q))
            <= length (queue_items q)).
    { cbn [queue_after]. destruct (guarded r); cbn [queue_items]; [|lia].
      apply filter_length_le. }
    unfold queued in Hsteps. subst q. lia.
Qed.

Lemma guard_removal_in_epoch_witness :
  exists w1 tr1 w2,
    perform_all (fun _ => true) 2 3
      (CallDisableSpaRouting :: [CallAddEventListener router_popstate;
                                 CallAddEventListener router_hashchange])
      fresh_window = Done tt w1 tr1 /\
    perform (fun _ => true) 2 3
      (CallRemoveEventListener (mkReg "popstate" (AppListener 1) (VBool true)))
      w1 = Done tt w2 [] /\
    queued w1 = [router_popstate; router_hashchange] /\
    queued w2 = [router_hashchange].
Proof.
  destruct (guard_removal_in_epoch (fun _ => true) 2 3 fresh_window
              [CallAddEventListener router_popstate;
               CallAddEventListener router_hashchange]
              (mkReg "popstate" (AppListener 1) (VBool true))
              (le_n 2) (le_n 3) eq_refl eq_refl eq_refl)
    as (w1 & tr1 & w2 & w3 & H1 & H2 & H3 & _).
  exists w1, tr1, w2. repeat apply conj; try assumption.
  - vm_compute in H1. now injection H1 as <- _.
  - rewrite H3. vm_compute in H1. now injection H1 as <- _.
Defined.

(** X14.  Inside such an epoch, the calls of the [history] object change
    neither a binding nor the queue.  [pushState] and [replaceState] each
    make one page navigation, as [hardNavigate] does for their [url];
    [back], [forward] and [go] each call the saved original once, [go] with
    its [delta], and schedule one reload. *)
Theorem guard_history_calls_in_epoch :
  forall (href_ok : string -> bool) (stack steps : nat) (w : Window)
         (acts calls : list Action),
    2 <= stack ->
    builtin_operations w = true ->
    guard_enabled w = false ->
    forallb (fun a => negb (is_restore a)) acts = true ->
    forallb is_history_call calls = true ->
    exists w1 tr1,
      perform_all href_ok stack steps (CallDisableSpaRouting :: acts) w
      = Done tt w1 tr1 /\
      perform_all href_ok stack steps calls w1
      = Done tt w1
          (flat_map
             (fun a =>
                match a with
                | CallPushState url | CallReplaceState url =>
                    [navigation href_ok url]
                | CallBack =>
                    [EvCall (back (history w)) NoArgs; EvSetTimeoutReload]
                | CallForward =>
                    [EvCall (forward (history w)) NoArgs; EvSetTimeoutReload]
                | CallGo delta =>
                    [EvCall (go (history w)) (OneArg delta);
                     EvSetTimeoutReload]
                | _ => []
                end) calls).
Proof.
  intros href_ok stack steps w acts calls Hs Hb Hoff Hacts Hcalls.
  set (q := queue_after_all acts (queue w)).
  exists (in_epoch w q),
    (install_handlers w ++ flat_map (effects_in_epoch href_ok w) acts)%list.
  split; [now apply enter_epoch|].
  rewrite (perform_all_in_epoch href_ok stack steps w calls q Hs Hb
             (history_calls_allowed calls Hcalls)).
  rewrite (history_calls_keep_queue calls q Hcalls). f_equal.
  clear Hacts. induction calls as [|a calls IH]; [reflexivity|].
  simpl in Hcalls. apply andb_prop in Hcalls as [Ha Hcalls].
  cbn [flat_map]. rewrite (IH Hcalls).
  destruct a; try discriminate; reflexivity.
Qed.

Lemma guard_history_calls_in_epoch_witness :
  exists w1 tr1,
    perform_all (fun _ => true) 2 1 (CallDisableSpaRouting :: page_script)
      fresh_window = Done tt w1 tr1 /\
    perform_all (fun _ => true) 2 1
      [CallPushState (VString "/page/b"); CallReplaceState VNull;
       CallGo (VOther (Ret "-1"))] w1
    = Done tt w1
        [EvSetHref "/page/b"; EvReload;
         EvCall (Builtin 4) (OneArg (VOther (Ret "-1"))); EvSetTimeoutReload].
Proof.
  exact (guard_history_calls_in_epoch (fun _ => true) 2 1 fresh_window
           page_script
           [CallPushState (VString "/page/b"); CallReplaceState VNull;
            CallGo (VOther (Ret "-1"))] (le_n 2) eq_refl eq_refl eq_refl
           eq_refl).
Defined.

(** X15.  A cycle [disableSpaRouting(); restoreSpaRouting();] can be
    repeated.  From a window whose guard is off and whose operations are not
    closures of the kill-switch, the first cycle replays what was queued and
    leaves such a window again, with the same bindings and an empty queue.
    Every further cycle installs two handlers of its own, new ones, with the
    original [addEventListener], removes them with the original
    [removeEventListener], calls nothing else, and leaves the bindings, the
    guard and the array of the queue as it found them. *)
Theorem guard_cycle_repeats :
  forall (href_ok : string -> bool) (stack steps : nat) (w : Window),
    1 <= stack ->
    length (queued w) < steps ->
    builtin_operations w = true ->
    guard_enabled w = false ->
    exists w3 w4,
      cycle href_ok stack steps w
      = Done tt w3
          (install_handlers w
           ++ remove_handlers w
           ++ map (EvListenerCall (addEventListener w)) (queued w)) /\
      history w3 = history w /\
      addEventListener w3 = addEventListener w /\
      removeEventListener w3 = removeEventListener w /\
      guard_enabled w3 = false /\
      queued w3 = [] /\
      cycle href_ok stack steps w3
      = Done tt w4 (install_handlers w3 ++ remove_handlers w3) /\
      onHashAttempt_of w3 <> onHashAttempt_of w /\
      onPopState_of w3 <> onPopState_of w /\
      history w4 = history w /\
      addEventListener w4 = addEventListener w /\
      removeEventListener w4 = removeEventListener w /\
      guard_enabled w4 = false /\
      queue w4 = queue w3.
Proof.
  intros href_ok stack steps w Hs Hsteps Hb Hoff.
  assert (Hq3 : queued (after_epoch w (queue w)) = [])
    by apply emptied_items.
  assert (Hb3 : builtin_operations (after_epoch w (queue w)) = true)
    by exact Hb.
  exists (after_epoch w (queue w)),
    (after_epoch (after_epoch w (queue w)) (queue (after_epoch w (queue w)))).
  repeat apply conj; try reflexivity.
  - now apply cycle_run.
  - exact Hq3.
  - rewrite (cycle_run href_ok stack steps _ Hs) by
      (try rewrite Hq3; try assumption; try reflexivity; simpl; lia).
    rewrite Hq3. reflexivity.
  - cbv [onHashAttempt_of new_onHashAttempt saved_of after_epoch
         saved_in_epoch routingKillSwitch killSwitchHandlers].
    intros H. injection H. lia.
  - cbv [onPopState_of new_onPopState saved_of after_epoch
         saved_in_epoch routingKillSwitch killSwitchHandlers].
    intros H. injection H. lia.
  - change (emptied (emptied (queue w)) = emptied (queue w)).
    unfold emptied at 1. now rewrite emptied_items.
Qed.

Lemma guard_cycle_repeats_witness :
  exists w3 w4,
    cycle (fun _ => true) 1 1 fresh_window
    = Done tt w3
        (install_handlers fresh_window ++ remove_handlers fresh_window
         ++ map (EvListenerCall (addEventListener fresh_window))
              (queued fresh_window)) /\
    cycle (fun _ => true) 1 1 w3
    = Done tt w4 (install_handlers w3 ++ remove_handlers w3).
Proof.
  destruct (guard_cycle_repeats (fun _ => true) 1 1 fresh_window
              (le_n 1) (le_n 1) eq_refl eq_refl)
    as (w3 & w4 & H1 & _ & _ & _ & _ & _ & H2 & _).
  exists w3, w4. split; assumption.
Defined.

(** X16.  The patched [addEventListener] outlives its epoch.  When the page
    has kept a reference to it and calls it after [restoreSpaRouting], a
    registration for [popstate] or [hashchange] is still swallowed: the
    original operation is not called, the guard stays off and the bindings
    stay restored, and the registration waits in the queue until the next
    cycle replays it. *)
Theorem guard_stale_closure_still_queues :
  forall (href_ok : string -> bool) (stack steps : nat) (w : Window)
         (r : Registration),
    1 <= stack ->
    length (queued w) + 1 < steps ->
    builtin_operations w = true ->
    guard_enabled w = false ->
    guarded r = true ->
    exists w3 tr3 w4 w5,
      cycle href_ok stack steps w = Done tt w3 tr3 /\
      invoke href_ok stack KsAddEventListener (args_of r) w3
      = Done tt w4 [] /\
      guard_enabled w4 = false /\
      addEventListener w4 = addEventListener w /\
      queued w4 = [r] /\
      cycle href_ok stack steps w4
      = Done tt w5
          (install_handlers w4 ++ remove_handlers w4
           ++ [EvListenerCall (addEventListener w) r]) /\
      addEventListener w5 = addEventListener w /\
      queued w5 = [].
Proof.
  intros href_ok stack steps w r Hs Hsteps Hb Hoff Hg.
  set (w4 := mkWindow (history w) (addEventListener w)
               (removeEventListener w) (location_assign w)
               (location_replace w)
               (Some (saved_in_epoch w false
                        (mkQueue (queue_id (emptied (queue w))) [r])))).
  exists (after_epoch w (queue w)),
    (install_handlers w ++ remove_handlers w
     ++ map (EvListenerCall (addEventListener w)) (queued w))%list,
    w4, (after_epoch w4 (queue w4)).
  assert (Hb4 : builtin_operations w4 = true) by exact Hb.
  repeat apply conj; try reflexivity.
  - apply cycle_run; (assumption || lia).
  - destruct stack as [|n]; [lia|]. unfold guarded in Hg.
    cbn [invoke]. unfold ks_addEventListener, the_saved, update_saved, bind.
    cbn -[set_has]. rewrite Hg. subst w4. cbn -[set_has].
    rewrite emptied_items. destruct r; reflexivity.
  - rewrite (cycle_run href_ok stack steps w4 Hs) by
      (try assumption; try reflexivity; simpl; lia).
    reflexivity.
Qed.

Lemma guard_stale_closure_still_queues_witness :
  exists w3 tr3 w4,
    cycle (fun _ => true) 1 2 fresh_window = Done tt w3 tr3 /\
    invoke (fun _ => true) 1 KsAddEventListener (args_of router_popstate) w3
    = Done tt w4 [] /\
    guard_enabled w4 = false /\
    queued w4 = [router_popstate].
Proof.
  destruct (guard_stale_closure_still_queues (fun _ => true) 1 2 fresh_window
              router_popstate (le_n 1) (le_n 2) eq_refl eq_refl eq_refl)
    as (w3 & tr3 & w4 & w5 & H1 & H2 & H3 & _ & H4 & _).
  exists w3, tr3, w4. repeat apply conj; assumption.
Defined.

(** X20.  When the page has put the patched [addEventListener] back into
    [window] after an epoch, the next epoch saves that closure as the
    original.  [disableSpaRouting] then calls no outside function: its two
    handlers go to the queue.  Inside that epoch a registration of another
    type never reaches an outside function either: the closure hands it on to
    itself until the engine throws [RangeError], however many nested calls
    the engine allows.  [restoreSpaRouting] removes the two handlers with
    the original [removeEventListener], and its replay loop then pushes onto
    the array it walks: it does not end, whatever the bound on its steps. *)
Theorem guard_reentry_of_patched_addEventListener :
  forall (href_ok : string -> bool) (stack steps : nat),
    exists w1,
      disableSpaRouting href_ok (S stack) stale_window = Done tt w1 [] /\
      queued w1
      = [ mkReg "hashchange" (onHashAttempt_of stale_window) (VBool true);
          mkReg "popstate" (onPopState_of stale_window) (VBool true) ] /\
      perform href_ok stack steps (CallAddEventListener on_click) w1
      = Threw RangeError w1 [] /\
      restoreSpaRouting href_ok (S stack) steps w1
      = Diverged (remove_handlers stale_window).
Proof.
  intros href_ok stack steps.
  exists (in_epoch stale_window
            (mkQueue 0
               [ mkReg "hashchange" (onHashAttempt_of stale_window)
                   (VBool true);
                 mkReg "popstate" (onPopState_of stale_window)
                   (VBool true) ])).
  split; [reflexivity|]. split; [reflexivity|]. split.
  - match goal with
    | |- perform _ _ _ _ ?w = _ =>
        change (after [] (invoke href_ok stack KsAddEventListener
                            (args_of on_click) w) = Threw RangeError w []);
        rewrite (invoke_overflow href_ok w _ _ _ eq_refl eq_refl eq_refl
                   eq_refl) by reflexivity
    end.
    reflexivity.
  - unfold restoreSpaRouting, in_epoch, saved_in_epoch, stale_window.
    cbn -[replay]. unfold the_saved, update_saved, bind. cbn -[replay].
    match goal with
    | |- context [replay ?a ?b ?c ?d ?e ?f ?w] =>
        assert (E : replay a b c d e f w = Diverged [])
          by (apply replay_diverges; [lia|reflexivity|simpl; lia])
    end.
    rewrite E. reflexivity.
Qed.
(** ** The asset loop, further *)

Section Counts.
Context {FS : Type} (pfs : Pfs FS) (net : Net).

Lemma asset_loop_counts db entries : forall (fs : FS),
  let tr := events (for_of entries (syncAsset pfs net db) fs) in
  length (filter is_fetch tr) <= length entries /\
  length (filter is_write tr) <= length (filter is_fetch tr).
Proof.
  induction entries as [|e entries IH]; intros fs; [simpl; lia|].
  cbn [for_of]. unfold bind.
  destruct (syncAsset_done pfs net db e fs) as (fs1 & tr1 & H1).
  rewrite H1, events_after, !filter_app, !length_app.
  specialize (IH fs1). cbv zeta in IH. destruct IH as [IH1 IH2].
  assert (Hone : length (filter is_fetch tr1) <= 1 /\
                 length (filter is_write tr1) <= length (filter is_fetch tr1)).
  { rewrite syncAsset_run in H1.
    destruct (present_as_file _ _ _);
      [injection H1 as _ <-; simpl; lia|].
    destruct (fetched _ _ _); [|injection H1 as _ <-; simpl; lia].
    destruct (pfs_writeFile _ _ _ _); injection H1 as _ <-; simpl; lia. }
  simpl. lia.
Qed.

End Counts.

(** X17.  In one run the asset loop sends at most one request per listed
    entry, and never attempts more writes than it has sent requests: a write
    is attempted only for bytes just fetched. *)
Theorem asset_loop_fetches_at_most_once_per_entry :
  forall (FS : Type) (pfs : Pfs FS) (net : Net) (db : string)
         (entries : list DirEntry) (fs : FS),
    length (filter is_fetch
              (events (for_of entries (syncAsset pfs net db) fs)))
    <= length entries /\
    length (filter is_write
              (events (for_of entries (syncAsset pfs net db) fs)))
    <= length (filter is_fetch
                 (events (for_of entries (syncAsset pfs net db) fs))).
Proof.
  intros FS pfs net db entries fs.
  exact (asset_loop_counts pfs net db entries fs).
Qed.

(** ** The mirror on a store without the assets directory *)

Module MemFSAssets.
Import MemFS.

Lemma append_assoc (a b c : string) : (a ++ b) ++ c = a ++ (b ++ c).
Proof. induction a as [|x a IH]; simpl; [reflexivity | now rewrite IH]. Qed.

Lemma segments_dbPath db :
  valid_name db = true -> segments (dbPath db) = [db].
Proof.
  intros H. change (dbPath db) with (child_path "/" db).
  now rewrite MemFSTree.segments_child.
Qed.

Lemma segments_assetPath db name :
  valid_name db = true -> valid_name name = true ->
  segments (assetPath db name) = [db; "assets"; name].
Proof.
  intros Hdb Hname.
  assert (Hne : String.eqb ("/" ++ db) "/" = false).
  { destruct db as [|c db]; [discriminate | reflexivity]. }
  assert (Hne2 : String.eqb (("/" ++ db) ++ "/" ++ "assets") "/" = false).
  { destruct db as [|c db]; [discriminate | reflexivity]. }
  assert (E : assetPath db name
              = child_path (child_path (child_path "/" db) "assets") name).
  { unfold child_path. cbn [String.eqb Ascii.eqb Bool.eqb].
    rewrite Hne, Hne2. unfold assetPath.
    rewrite !append_assoc. reflexivity. }
  rewrite E, !MemFSTree.segments_child by (assumption || reflexivity).
  reflexivity.
Qed.

(** A rewriting succeeds only at a path that resolves to a directory. *)
Lemma in_dir_resolves f p : forall n n',
  in_dir p f n = Ret n' -> exists cs, lookup p n = Some (Dir cs).
Proof.
  induction p as [|seg p IH]; intros n n' H; destruct n as [d|cs];
    simpl in H; try discriminate.
  - exists cs. reflexivity.
  - simpl. destruct (child seg cs) as [c|]; [|discriminate].
    destruct (in_dir p f c) as [c'|] eqn:E; [|discriminate].
    exact (IH c c' E).
Qed.

Lemma child_app_new k cs name v :
  child k cs = None ->
  child k (cs ++ [(name, v)]) = if String.eqb name k then Some v else None.
Proof.
  induction cs as [|[k0 v0] cs IH]; simpl; [reflexivity|].
  destruct (String.eqb k0 k); [discriminate | exact IH].
Qed.

(** [mkdir] of [/${db}] does not bring [/${db}/assets] about. *)
Lemma mkdir_leaves_assets_missing db fs fs' :
  valid_name db = true ->
  lookup [db; "assets"] fs = None ->
  mkdir fs (dbPath db) = Ret fs' ->
  lookup [db; "assets"] fs' = None.
Proof.
  intros Hdb Hmiss. unfold mkdir. rewrite (segments_dbPath _ Hdb).
  cbn [removelast last in_dir]. destruct fs as [d|cs]; [discriminate|].
  destruct (child db cs) as [c|] eqn:Hc; [discriminate|].
  intros H. injection H as <-. cbn [lookup].
  rewrite (child_app_new _ _ _ _ Hc), String.eqb_refl. reflexivity.
Qed.

Lemma writeFile_needs_assets db name data fs :
  valid_name db = true -> valid_name name = true ->
  lookup [db; "assets"] fs = None ->
  exists e, writeFile fs (assetPath db name) data = Raise e.
Proof.
  intros Hdb Hname Hmiss. unfold writeFile.
  rewrite (segments_assetPath _ _ Hdb Hname).
  cbn [removelast last].
  destruct (in_dir [db; "assets"] _ fs) as [fs'|e] eqn:E; [|eauto].
  apply in_dir_resolves in E. destruct E as [cs E]. congruence.
Qed.

Lemma asset_loop_without_assets (net : Net) db entries : forall fs,
  valid_name db = true ->
  Forall (fun e => valid_name (entry_name e) = true) entries ->
  lookup [db; "assets"] fs = None ->
  exists tr, for_of entries (syncAsset pfs net db) fs = Done tt fs tr.
Proof.
  intros fs Hdb Hall Hmiss. induction Hall as [|e entries He Hall IH].
  - exists []. reflexivity.
  - destruct IH as [tr IH]. cbn [for_of]. unfold bind.
    rewrite syncAsset_run.
    destruct (present_as_file pfs fs (assetPath db (entry_name e))) eqn:Hp.
    { apply MemFSFacts.present_as_file_lookup in Hp. destruct Hp as [d Hp].
      rewrite (segments_assetPath _ _ Hdb He) in Hp. simpl in Hp, Hmiss.
      destruct fs as [d0|cs]; [discriminate|].
      destruct (child db cs) as [[d1|cs1]|]; try discriminate.
      destruct (child "assets" cs1); discriminate. }
    destruct (fetched _ _ _) as [data|ex].
    + destruct (writeFile_needs_assets db (entry_name e) data fs Hdb He Hmiss)
        as [ex Hw].
      change (pfs_writeFile pfs fs (assetPath db (entry_name e)) data)
        with (writeFile fs (assetPath db (entry_name e)) data).
      rewrite Hw, IH. eexists. reflexivity.
    + rewrite IH. eexists. reflexivity.
Qed.

Lemma plain_name_valid name : plain_name name = true -> valid_name name = true.
Proof.
  unfold plain_name. intros H.
  apply andb_prop in H as [H _]. apply andb_prop in H as [H _]. exact H.
Qed.

(** X18.  On the reference filesystem, a sync never creates
    [/${db}/assets].  When that directory is missing before the sync, for a
    database and a listing whose names are plain names, other than [.] and
    [..], it is still missing after the sync, and no asset path of the
    database with such a name is a file. *)
Theorem sync_never_creates_assets_directory :
  forall (net : Net) (fuel : nat) (db : string) (fs fs' : node),
    plain_name db = true ->
    match listed net db "assets" with
    | Ret entries =>
        Forall (fun e => plain_name (entry_name e) = true) entries
    | Raise _ => True
    end ->
    lookup [db; "assets"] fs = None ->
    final (syncDb pfs net fuel db fs) = Some fs' ->
    lookup [db; "assets"] fs' = None /\
    forall name, plain_name name = true ->
                 present_as_file pfs fs' (assetPath db name) = false.
Proof.
  intros net fuel db fs fs' Hplain Hnames Hmiss Hfinal.
  pose proof (plain_name_valid db Hplain) as Hdb.
  assert (Hstill : lookup [db; "assets"] fs' = None).
  { destruct (listed net db "assets") as [entries|e] eqn:Hlist.
    - destruct (ensureDbDir_done pfs db fs) as (fs1 & tr1 & Hens).
      assert (Hmiss1 : lookup [db; "assets"] fs1 = None).
      { rewrite ensureDbDir_run in Hens.
        destruct (present_as_dir _ _ _); [now injection Hens as <- _|].
        destruct (pfs_mkdir pfs fs (dbPath db)) as [s'|ex] eqn:Hmk;
          injection Hens as <- _; [|exact Hmiss].
        eapply mkdir_leaves_assets_missing; eauto. }
      assert (Hvalid : Forall (fun e => valid_name (entry_name e) = true)
                         entries).
      { eapply Forall_impl; [|exact Hnames].
        intros e. apply plain_name_valid. }
      destruct (asset_loop_without_assets net db entries fs1 Hdb Hvalid Hmiss1)
        as [tr2 Hloop].
      destruct (syncDb_run pfs net fuel db fs fs1 fs1 entries tr1 tr2
                  Hlist Hens Hloop) as (rest & _ & Hrun).
      destruct (syncDb pfs net fuel db fs) as [[] fs3 tr|ex fs3 tr|tr];
        [|contradiction|discriminate].
      destruct Hrun as [-> _]. simpl in Hfinal. now injection Hfinal as <-.
    - rewrite (syncDb_listing_fails pfs net fuel db fs e Hlist) in Hfinal.
      simpl in Hfinal. now injection Hfinal as <-. }
  split; [exact Hstill|]. intros name Hname.
  apply plain_name_valid in Hname.
  destruct (present_as_file pfs fs' (assetPath db name)) eqn:Hp;
    [|reflexivity].
  apply MemFSFacts.present_as_file_lookup in Hp. destruct Hp as [d Hp].
  rewrite (segments_assetPath _ _ Hdb Hname) in Hp. simpl in Hp, Hstill.
  destruct fs' as [d0|cs]; [discriminate|].
  destruct (child db cs) as [[d1|cs1]|]; try discriminate.
  destruct (child "assets" cs1); discriminate.
Qed.

End MemFSAssets.

Lemma sync_never_creates_assets_directory_witness :
  MemFS.lookup ["mydb"; "assets"] (MemFS.Dir [("mydb", MemFS.Dir [])]) = None /\
  present_as_file MemFS.pfs (MemFS.Dir [("mydb", MemFS.Dir [])])
    (assetPath "mydb" "b.png") = false.
Proof.
  destruct (MemFSAssets.sync_never_creates_assets_directory
              (server two_assets_site) 5 "mydb" MemFS.empty
              (MemFS.Dir [("mydb", MemFS.Dir [])]) eq_refl
              ltac:(repeat constructor) eq_refl eq_refl) as [H1 H2].
  split; [exact H1 | exact (H2 "b.png" eq_refl)].
Defined.

